(** * monke-finance: transaction ingestion and FIFO cost-basis ledger

    A shallow embedding of
    - class [FIFOCostBasisCalculator] (the module [transactionProcessor.ts]
      imports as [./costBasisCalculator]) and
    - class [TransactionProcessor] of [backend/src/services/transactionProcessor.ts],
    followed by what holds of them, and what does not.

    Numbers.  Token amounts are decimal strings read with [new Big(..)]; the
    feed documents them as "Token amount in smallest unit", so they are whole
    numbers and [Big]'s exact [plus], [minus], [min], [lte], [gt], [eq] are
    the operations of [Z].  Prices and profit-and-loss figures are JavaScript
    numbers; they are taken here as exact rationals ([Q]), i.e. rounding of
    IEEE doubles is not part of the model.  A JavaScript division whose
    divisor is zero (the results NaN and Infinity) is kept apart, see
    [js_div].

    Store.  The PostgreSQL tables are lists of rows in creation order.  A
    statement sent to the store can fail (a persistence error): an oracle
    [fails] says which statements do.  Taking a connection, [BEGIN] and
    [ROLLBACK] are taken to succeed. *)

From Stdlib Require Import ZArith QArith Qabs Lia Lqa List String Bool.
From Stdlib Require Import Sorting.Sorted Sorting.Permutation.
Import ListNotations.

Local Open Scope Z_scope.
Local Open Scope bool_scope.
Local Open Scope list_scope.

(** ** Numbers *)

(** [a / b] on JavaScript numbers, [None] when the divisor is zero. *)
Definition js_div (a b : Q) : option Q :=
  if Qeq_bool b 0 then None else Some (a / b)%Q.

(** [a < b] on rationals, as a boolean. *)
Definition Qlt_bool (a b : Q) : bool := negb (Qle_bool b a).

(** SQL [SUM]: [NULL] over no rows. *)
Definition sql_sum_Z (l : list Z) : option Z :=
  match l with [] => None | _ => Some (fold_right Z.add 0 l) end.

Definition sql_sum_Q (l : list Q) : option Q :=
  match l with [] => None | _ => Some (fold_right Qplus 0%Q l) end.

(** JavaScript [x || '0'] on a nullable column. *)
Definition or_zero_Z (x : option Z) : Z := match x with Some z => z | None => 0 end.
Definition or_zero_Q (x : option Q) : Q := match x with Some q => q | None => 0%Q end.

(** ** Data model *)

Inductive TransactionType := buy | sell | transfer.


(** [TokenTransaction] of solanaTrackerClient.ts; the optional [blockHash],
    [instructionIndex] and [innerInstructionIndex] are only copied into the
    transaction row and are left out. *)
Record TokenTransaction := mkTokenTransaction {
  signature : string;
  tokenAddress : string;
  walletAddress : string;
  transactionType : TransactionType;
  amount : Z;
  pricePerToken : Q;
  totalValue : Q;
  blockTime : Z;
  slot : Z
}.

(** Rows of the four tables.  Ids are the keys the store hands out
    ([RETURNING id]); [cb_created_at] is the creation rank of a lot
    ([created_at = NOW()]). *)
Record TokenRow := mkTokenRow {
  tk_id : nat;
  tk_address : string
}.

Record TransactionRow := mkTransactionRow {
  tx_id : nat;
  tx_token_id : nat;
  tx_signature : string;
  tx_wallet_address : string;
  tx_transaction_type : TransactionType;
  tx_amount : Z;
  tx_price_per_token : Q;
  tx_total_value : Q;
  tx_block_time : Z;
  tx_slot : Z
}.

Record HolderRow := mkHolderRow {
  h_id : nat;
  h_token_id : nat;
  h_wallet_address : string;
  h_current_balance : Z;
  h_total_bought : Z;
  h_total_sold : Z;
  h_average_buy_price : Q;
  h_realized_pnl : Q;
  h_first_buy_timestamp : option Z;
  h_last_transaction_timestamp : option Z;
  h_is_active : bool
}.

Record CostBasisRow := mkCostBasisRow {
  cb_id : nat;
  cb_holder_id : nat;
  cb_transaction_id : nat;
  cb_remaining_amount : Z;
  cb_original_amount : Z;
  cb_price_per_token : Q;
  cb_purchase_timestamp : Z;
  cb_created_at : nat
}.

Record Database := mkDatabase {
  tokens : list TokenRow;
  transactions : list TransactionRow;
  holders : list HolderRow;
  cost_basis : list CostBasisRow
}.

Definition empty_database : Database := mkDatabase [] [] [] [].

(** ** Logging

    Only the [warn] and [error] lines are kept; [logger.debug] and
    [logger.info] do not take part in any control flow. *)

Inductive Stmt :=
| SelectTransaction (sig : string)
| SelectToken (address : string)
| InsertToken (address : string)
| InsertTransaction (sig : string)
| SelectHolder (tokenId : nat) (wallet : string)
| InsertHolder (tokenId : nat) (wallet : string)
| UpdateHolder (holderId : nat)
| InsertCostBasis (holderId : nat)
| SelectCostBasis (holderId : nat)
| UpdateCostBasis (id : nat)
| SumCostBasis (holderId : nat)
| SelectCostTotals (holderId : nat)
| SelectHolderZones (tokenId : nat)
| SelectSupply (tokenId : nat)
| SelectPriceDistribution (tokenId : nat)
| CommitSale (holderId : nat)
| CommitTransaction (sig : string).

Inductive Error := StoreError (s : Stmt).

Inductive Warning :=
| NoCostBasisEntries (holderId : nat)
| SaleExceedsCostBasis (saleAmount remaining : Z).

Inductive LogLine :=
| LogWarn (w : Warning)
| LogError (message : string) (e : Error).

Definition is_warning (l : LogLine) : bool :=
  match l with
  | LogWarn _ => true
  | LogError _ _ => false
  end.

(** ** The store and the effects of the methods *)

(** What the methods of both classes act on: the committed rows of the
    store and the log. *)
Record Store := mkStore {
  db : Database;
  log : list LogLine
}.

Definition initial_store : Store := mkStore empty_database [].

Inductive Outcome (A : Type) :=
| Ok (a : A)
| Throw (e : Error).
Arguments Ok {A} a.
Arguments Throw {A} e.

(** An [async] method: it runs on the store and either returns or throws. *)
Definition M (A : Type) := Store -> Outcome A * Store.

Definition ret {A} (a : A) : M A := fun st => (Ok a, st).

Definition bind {A B} (m : M A) (k : A -> M B) : M B :=
  fun st => match m st with
            | (Ok a, st') => k a st'
            | (Throw e, st') => (Throw e, st')
            end.

Definition throw {A} (e : Error) : M A := fun st => (Throw e, st).

(** [try { m } catch (error) { h error }] *)
Definition try_catch {A} (m : M A) (h : Error -> M A) : M A :=
  fun st => match m st with
            | (Ok a, st') => (Ok a, st')
            | (Throw e, st') => h e st'
            end.

Declare Scope monad_scope.
Delimit Scope monad_scope with monad.
Notation "x <- m ;; k" := (bind m (fun x => k))
  (at level 61, m at next level, right associativity) : monad_scope.
Notation "m ;;; k" := (bind m (fun _ => k))
  (at level 61, right associativity) : monad_scope.
Local Open Scope monad_scope.

Definition get_db : M Database := fun st => (Ok (db st), st).

Definition set_db (d : Database) (st : Store) : Store := mkStore d (log st).

Definition modify_db (f : Database -> Database) : M unit :=
  fun st => (Ok tt, set_db (f (db st)) st).

Definition logger (l : LogLine) : M unit :=
  fun st => (Ok tt, mkStore (db st) (log st ++ [l])).

Definition set_cost_basis (cb : list CostBasisRow) (d : Database) : Database :=
  mkDatabase (tokens d) (transactions d) (holders d) cb.

Definition set_holders (hs : list HolderRow) (d : Database) : Database :=
  mkDatabase (tokens d) (transactions d) hs (cost_basis d).

(** A fresh key: larger than every key in use. *)
Definition fresh_id (ids : list nat) : nat := S (list_max ids).

(** ** FIFO order of lots

    [ORDER BY purchase_timestamp ASC, created_at ASC] *)

Definition lot_leb (a b : CostBasisRow) : bool :=
  (cb_purchase_timestamp a <? cb_purchase_timestamp b)
  || ((cb_purchase_timestamp a =? cb_purchase_timestamp b)
      && (cb_created_at a <=? cb_created_at b)%nat).

Fixpoint insert_lot (x : CostBasisRow) (l : list CostBasisRow) : list CostBasisRow :=
  match l with
  | [] => [x]
  | y :: l' => if lot_leb x y then x :: l else y :: insert_lot x l'
  end.

Fixpoint order_by_purchase (l : list CostBasisRow) : list CostBasisRow :=
  match l with
  | [] => []
  | x :: l' => insert_lot x (order_by_purchase l')
  end.

(** [WHERE holder_id = $1 AND remaining_amount > 0] *)
Definition is_open_lot_of (holderId : nat) (r : CostBasisRow) : bool :=
  (cb_holder_id r =? holderId)%nat && (0 <? cb_remaining_amount r).

Definition open_lots (holderId : nat) (d : Database) : list CostBasisRow :=
  filter (is_open_lot_of holderId) (cost_basis d).

(** The rows [processSale] and [getCostBasisBreakdown] read. *)
Definition fifo_lots (holderId : nat) (d : Database) : list CostBasisRow :=
  order_by_purchase (open_lots holderId d).

(** A lot with its [remaining_amount] replaced. *)
Definition with_remaining (r : CostBasisRow) (newRemainingAmount : Z) : CostBasisRow :=
  mkCostBasisRow (cb_id r) (cb_holder_id r) (cb_transaction_id r) newRemainingAmount
    (cb_original_amount r) (cb_price_per_token r) (cb_purchase_timestamp r) (cb_created_at r).

(** [UPDATE cost_basis SET remaining_amount = $1 WHERE id = $2] *)
Definition set_remaining (id : nat) (newRemainingAmount : Z) (r : CostBasisRow) : CostBasisRow :=
  if (cb_id r =? id)%nat then with_remaining r newRemainingAmount else r.

Definition update_remaining (id : nat) (newRemainingAmount : Z) (d : Database) : Database :=
  set_cost_basis (map (set_remaining id newRemainingAmount) (cost_basis d)) d.

(** [SUM(remaining_amount::DECIMAL)] and
    [SUM(remaining_amount::DECIMAL * price_per_token)] over the open lots. *)
Definition sum_remaining (holderId : nat) (d : Database) : option Z :=
  sql_sum_Z (map cb_remaining_amount (open_lots holderId d)).

Definition lot_cost (r : CostBasisRow) : Q :=
  (inject_Z (cb_remaining_amount r) * cb_price_per_token r)%Q.

Definition sum_cost (holderId : nat) (d : Database) : option Q :=
  sql_sum_Q (map lot_cost (open_lots holderId d)).

(** ** FIFOCostBasisCalculator *)

Section Calculator.

(** The statements on which the store fails. *)
Variable fails : Stmt -> bool.

(** [await client.query(..)]: throws when the store fails on the statement. *)
Definition query (s : Stmt) : M unit :=
  fun st => if fails s then (Throw (StoreError s), st) else (Ok tt, st).

(** The calculator takes a connection of its own from the pool
    ([this.db.connect()]) for each call.  Its [ROLLBACK] undoes what that
    connection wrote since [BEGIN], which is rows of [cost_basis] only. *)
Definition calculator_rollback (begin : Database) : M unit :=
  modify_db (set_cost_basis (cost_basis begin)).

(** [addPurchase]: a single [INSERT] outside any [BEGIN], committed at once. *)
Definition addPurchase (holderId transactionId : nat) (amount : Z)
    (pricePerToken : Q) (purchaseTimestamp : Z) : M unit :=
  try_catch
    (query (InsertCostBasis holderId) ;;;
     modify_db (fun d =>
       let id := fresh_id (map cb_id (cost_basis d)) in
       set_cost_basis
         (cost_basis d ++
          [mkCostBasisRow id holderId transactionId amount amount pricePerToken
             purchaseTimestamp (fresh_id (map cb_created_at (cost_basis d)))]) d))
    (fun error => logger (LogError "Error adding purchase to cost basis:" error) ;;; throw error).

(** The [for (const entry of costBasisEntries)] loop of [processSale]; it
    returns [totalRealizedPnl] and [remainingSaleAmount]. *)
Fixpoint sale_loop (costBasisEntries : list CostBasisRow) (salePrice : Q)
    (totalRealizedPnl : Q) (remainingSaleAmount : Z) : M (Q * Z) :=
  match costBasisEntries with
  | [] => ret (totalRealizedPnl, remainingSaleAmount)
  | entry :: rest =>
      if remainingSaleAmount <=? 0 then ret (totalRealizedPnl, remainingSaleAmount)
      else
        let availableAmount := cb_remaining_amount entry in
        let useAmount := Z.min remainingSaleAmount availableAmount in
        let costBasis := cb_price_per_token entry in
        let realizedPnl := (inject_Z useAmount * (salePrice - costBasis))%Q in
        let newRemainingAmount := availableAmount - useAmount in
        query (UpdateCostBasis (cb_id entry)) ;;;
        modify_db (update_remaining (cb_id entry) newRemainingAmount) ;;;
        sale_loop rest salePrice (totalRealizedPnl + realizedPnl)%Q
          (remainingSaleAmount - useAmount)
  end.

Definition processSale (holderId : nat) (saleAmount : Z) (salePrice : Q) : M Q :=
  begin <- get_db ;;
  try_catch
    (query (SelectCostBasis holderId) ;;;
     d <- get_db ;;
     let costBasisEntries := fifo_lots holderId d in
     match costBasisEntries with
     | [] =>
         logger (LogWarn (NoCostBasisEntries holderId)) ;;;
         calculator_rollback begin ;;;
         ret 0%Q
     | _ =>
         r <- sale_loop costBasisEntries salePrice 0%Q saleAmount ;;
         let (totalRealizedPnl, remainingSaleAmount) := r in
         (if 0 <? remainingSaleAmount
          then logger (LogWarn (SaleExceedsCostBasis saleAmount remainingSaleAmount))
          else ret tt) ;;;
         query (CommitSale holderId) ;;;
         ret totalRealizedPnl
     end)
    (fun error =>
       calculator_rollback begin ;;;
       logger (LogError "Error processing FIFO sale:" error) ;;;
       throw error).

(** [getTotalCostBasis] *)
Definition getTotalCostBasis (holderId : nat) : M Q :=
  try_catch
    (query (SumCostBasis holderId) ;;;
     d <- get_db ;;
     ret (or_zero_Q (sum_cost holderId d)))
    (fun error => logger (LogError "Error calculating total cost basis:" error) ;;; throw error).

End Calculator.

(** A store that never fails. *)
Definition reliable : Stmt -> bool := fun _ => false.

(** ** Read-only metrics of the calculator *)

(** A JavaScript number that may be NaN or infinite ([None]). *)
Definition number := option Q.

Record UnrealizedPnL := mkUnrealizedPnL {
  unrealizedPnl : Q;
  totalAmount : Z;
  averageCostBasis : number
}.

Section Metrics.

Variable fails : Stmt -> bool.

Definition getWeightedAverageCostBasis (holderId : nat) : M number :=
  try_catch
    (query fails (SelectCostTotals holderId) ;;;
     d <- get_db ;;
     let totalCost := or_zero_Q (sum_cost holderId d) in
     let totalAmount := or_zero_Z (sum_remaining holderId d) in
     if totalAmount =? 0 then ret (Some 0%Q)
     else ret (js_div totalCost (inject_Z totalAmount)))
    (fun error =>
       logger (LogError "Error calculating weighted average cost basis:" error) ;;; throw error).

Definition getUnrealizedPnL (holderId : nat) (currentPrice : Q) : M UnrealizedPnL :=
  try_catch
    (query fails (SelectCostTotals holderId) ;;;
     d <- get_db ;;
     let totalAmount := or_zero_Z (sum_remaining holderId d) in
     let totalCostBasis := or_zero_Q (sum_cost holderId d) in
     if totalAmount =? 0 then ret (mkUnrealizedPnL 0%Q 0 (Some 0%Q))
     else
       let averageCostBasis := js_div totalCostBasis (inject_Z totalAmount) in
       let currentValue := (inject_Z totalAmount * currentPrice)%Q in
       let unrealizedPnl := (currentValue - totalCostBasis)%Q in
       ret (mkUnrealizedPnL unrealizedPnl totalAmount averageCostBasis))
    (fun error => logger (LogError "Error calculating unrealized P&L:" error) ;;; throw error).

End Metrics.

(** ** TransactionProcessor *)

(** [HolderPosition] as [updateHolderPosition] fills it in; only the fields
    that [updatePositionForTransaction] reads. *)
Record HolderPosition := mkHolderPosition {
  currentBalance : Z;
  totalBought : Z;
  totalSold : Z;
  realizedPnl : Q
}.

(** The state of a [TransactionProcessor]: the store it was given and its
    two private fields.  [processTransaction] and what it calls use neither
    field, so they are written over the store alone. *)
Record Processor := mkProcessor {
  store : Store;
  processingQueue : list TokenTransaction;
  isProcessing : bool
}.

Definition initial_processor : Processor := mkProcessor initial_store [] false.

(** The [UPDATE holders SET .. WHERE id = $8] of [updatePositionForTransaction]. *)
Definition update_holder (holderId : nat) (newBalance newTotalBought newTotalSold : Z)
    (newAverageBuyPrice newRealizedPnl : Q) (type : TransactionType) (time : Z)
    (h : HolderRow) : HolderRow :=
  if (h_id h =? holderId)%nat
  then mkHolderRow (h_id h) (h_token_id h) (h_wallet_address h)
         newBalance newTotalBought newTotalSold newAverageBuyPrice newRealizedPnl
         (match h_first_buy_timestamp h with
          | Some t => Some t
          | None => match type with buy => Some time | _ => None end
          end)
         (Some time)
         (0 <? newBalance)
  else h.

Section Processing.

Variable fails : Stmt -> bool.

(** [ROLLBACK] on the connection [processTransaction] opened: it undoes what
    was written through [client] since [BEGIN], which is rows of [tokens],
    [transactions] and [holders].  Rows of [cost_basis] are written by the
    calculator on other connections and are not part of this transaction. *)
Definition client_rollback (begin : Database) : M unit :=
  modify_db (fun d =>
    mkDatabase (tokens begin) (transactions begin) (holders begin) (cost_basis d)).

Definition ensureTokenExists (tokenAddress : string) : M nat :=
  query fails (SelectToken tokenAddress) ;;;
  d <- get_db ;;
  match find (fun t => String.eqb (tk_address t) tokenAddress) (tokens d) with
  | Some t => ret (tk_id t)
  | None =>
      query fails (InsertToken tokenAddress) ;;;
      let id := fresh_id (map tk_id (tokens d)) in
      modify_db (fun d => mkDatabase (tokens d ++ [mkTokenRow id tokenAddress])
                            (transactions d) (holders d) (cost_basis d)) ;;;
      ret id
  end.

Definition updatePositionForTransaction (holderId : nat)
    (currentPosition : option HolderPosition) (transaction : TokenTransaction)
    (transactionId : nat) : M unit :=
  let amount := amount transaction in
  let price := pricePerToken transaction in
  let newBalance := match currentPosition with Some p => currentBalance p | None => 0 end in
  let newTotalBought := match currentPosition with Some p => totalBought p | None => 0 end in
  let newTotalSold := match currentPosition with Some p => totalSold p | None => 0 end in
  let newRealizedPnl := match currentPosition with Some p => realizedPnl p | None => 0%Q end in
  r <- match transactionType transaction with
       | buy =>
           addPurchase fails holderId transactionId amount price
             (blockTime transaction * 1000) ;;;
           ret (newBalance + amount, newTotalBought + amount, newTotalSold, newRealizedPnl)
       | sell =>
           realizedPnl <- processSale fails holderId amount price ;;
           ret (newBalance - amount, newTotalBought, newTotalSold + amount,
                (newRealizedPnl + realizedPnl)%Q)
       | transfer =>
           ret (newBalance + amount, newTotalBought, newTotalSold, newRealizedPnl)
       end ;;
  let '(newBalance, newTotalBought, newTotalSold, newRealizedPnl) := r in
  newAverageBuyPrice <-
    (if 0 <? newTotalBought
     then totalCostBasis <- getTotalCostBasis fails holderId ;;
          ret (totalCostBasis / inject_Z newTotalBought)%Q
     else ret 0%Q) ;;
  query fails (UpdateHolder holderId) ;;;
  modify_db (fun d =>
    set_holders
      (map (update_holder holderId newBalance newTotalBought newTotalSold
              newAverageBuyPrice newRealizedPnl (transactionType transaction)
              (blockTime transaction * 1000))
           (holders d)) d).

(** A holder row as [INSERT INTO holders (token_id, wallet_address, created_at)]
    leaves it.  The other columns take the table's defaults; they are all
    overwritten by the [UPDATE] that follows in the same transaction, except
    [first_buy_timestamp], which starts out [NULL]. *)
Definition new_holder (id tokenId : nat) (walletAddress : string) : HolderRow :=
  mkHolderRow id tokenId walletAddress 0 0 0 0%Q 0%Q None None true.

Definition find_holder (tokenId : nat) (walletAddress : string) (d : Database)
  : option HolderRow :=
  find (fun h => (h_token_id h =? tokenId)%nat
                 && String.eqb (h_wallet_address h) walletAddress) (holders d).

Definition updateHolderPosition (tokenId : nat) (walletAddress : string)
    (transaction : TokenTransaction) (transactionId : nat) : M unit :=
  query fails (SelectHolder tokenId walletAddress) ;;;
  d <- get_db ;;
  match find_holder tokenId walletAddress d with
  | None =>
      query fails (InsertHolder tokenId walletAddress) ;;;
      let holderId := fresh_id (map h_id (holders d)) in
      modify_db (fun d => set_holders (holders d ++ [new_holder holderId tokenId walletAddress]) d) ;;;
      updatePositionForTransaction holderId None transaction transactionId
  | Some row =>
      updatePositionForTransaction (h_id row)
        (Some (mkHolderPosition (h_current_balance row) (h_total_bought row)
                 (h_total_sold row) (h_realized_pnl row)))
        transaction transactionId
  end.

(** [SELECT id FROM transactions WHERE signature = $1] has a row. *)
Definition signature_exists (sig : string) (d : Database) : bool :=
  existsb (fun t => String.eqb (tx_signature t) sig) (transactions d).

Definition insert_transaction (tokenId : nat) (transaction : TokenTransaction) : M nat :=
  query fails (InsertTransaction (signature transaction)) ;;;
  d <- get_db ;;
  let id := fresh_id (map tx_id (transactions d)) in
  modify_db (fun d =>
    mkDatabase (tokens d)
      (transactions d ++
       [mkTransactionRow id tokenId (signature transaction) (walletAddress transaction)
          (transactionType transaction) (amount transaction) (pricePerToken transaction)
          (totalValue transaction) (blockTime transaction * 1000) (slot transaction)])
      (holders d) (cost_basis d)) ;;;
  ret id.

Definition processTransaction (transaction : TokenTransaction) : M unit :=
  begin <- get_db ;;
  try_catch
    (query fails (SelectTransaction (signature transaction)) ;;;
     d <- get_db ;;
     if signature_exists (signature transaction) d
     then client_rollback begin ;;; ret tt
     else
       tokenId <- ensureTokenExists (tokenAddress transaction) ;;
       transactionId <- insert_transaction tokenId transaction ;;
       updateHolderPosition tokenId (walletAddress transaction) transaction transactionId ;;;
       query fails (CommitTransaction (signature transaction)))
    (fun error =>
       client_rollback begin ;;;
       logger (LogError ("Error processing transaction " ++ signature transaction) error) ;;;
       throw error).

(** The [while (this.processingQueue.length > 0)] loop of [processQueue]:
    [shift] the first item and apply it.  [queue] is [this.processingQueue];
    [processTransaction] does not touch it, so the loop runs over the items
    that are queued when the drain starts. *)
Fixpoint drain (queue : list TokenTransaction) (p : Processor) : Outcome unit * Processor :=
  match queue with
  | [] => (Ok tt, p)
  | transaction :: rest =>
      match processTransaction transaction (store p) with
      | (Ok _, s) => drain rest (mkProcessor s rest (isProcessing p))
      | (Throw error, s) => (Throw error, mkProcessor s rest (isProcessing p))
      end
  end.

Definition processQueue (p : Processor) : Outcome unit * Processor :=
  if isProcessing p || (List.length (processingQueue p) =? 0)%nat then (Ok tt, p)
  else
    let p1 := mkProcessor (store p) (processingQueue p) true in
    let (r, p2) :=
      match drain (processingQueue p1) p1 with
      | (Ok a, p') => (Ok a, p')
      | (Throw error, p') =>
          (Ok tt,
           mkProcessor
             (snd (logger (LogError "Error processing transaction queue:" error) (store p')))
             (processingQueue p') (isProcessing p'))
      end in
    (r, mkProcessor (store p2) (processingQueue p2) false).

Definition handleTransaction (transaction : TokenTransaction) (p : Processor)
  : Outcome unit * Processor :=
  let p1 := mkProcessor (store p) (processingQueue p ++ [transaction]) (isProcessing p) in
  match (if isProcessing p1 then (Ok tt, p1) else processQueue p1) with
  | (Ok a, p') => (Ok a, p')
  | (Throw error, p') =>
      (Ok tt,
       mkProcessor (snd (logger (LogError "Error handling transaction:" error) (store p')))
         (processingQueue p') (isProcessing p'))
  end.

End Processing.

(** Applying a list of transactions one after the other through
    [processTransaction], as the loop of [processHistoricalData] does. *)
Fixpoint processAll (fails : Stmt -> bool) (l : list TokenTransaction) : M unit :=
  match l with
  | [] => ret tt
  | transaction :: rest => processTransaction fails transaction ;;; processAll fails rest
  end.

(** ** Analytics: profit/loss zones *)

Record ProfitLossZones := mkProfitLossZones {
  profitHolders : nat;
  lossHolders : nat;
  breakEvenHolders : nat;
  totalHolders : nat;
  profitAmountUSD : Q;
  lossAmountUSD : Q;
  breakEvenAmountUSD : Q
}.

(** A row of the query of [calculateProfitLossZones]. *)
Record ZoneRow := mkZoneRow {
  zr_holder_id : nat;
  zr_current_balance : Z;
  zr_average_cost_basis : Q
}.

(** [COALESCE(SUM(remaining * price) / NULLIF(SUM(remaining), 0), 0)] over the
    open lots joined to a holder. *)
Definition average_cost_basis_of (holderId : nat) (d : Database) : Q :=
  match sum_cost holderId d, sum_remaining holderId d with
  | Some cost, Some total => if total =? 0 then 0%Q else (cost / inject_Z total)%Q
  | _, _ => 0%Q
  end.

(** [WHERE h.token_id = $1 AND h.is_active = true AND h.current_balance > 0] *)
Definition is_active_holder_of (tokenId : nat) (h : HolderRow) : bool :=
  (h_token_id h =? tokenId)%nat && h_is_active h && (0 <? h_current_balance h).

Definition zone_rows (tokenId : nat) (d : Database) : list ZoneRow :=
  map (fun h => mkZoneRow (h_id h) (h_current_balance h) (average_cost_basis_of (h_id h) d))
      (filter (is_active_holder_of tokenId) (holders d)).

Definition breakEvenTolerance : Q := 1 # 100.

(** One turn of the [for (const row of result.rows)] loop. *)
Definition zones_step (currentPrice : Q) (z : ProfitLossZones) (row : ZoneRow)
  : ProfitLossZones :=
  let averageCostBasis := zr_average_cost_basis row in
  let currentValueUSD := (inject_Z (zr_current_balance row) * currentPrice)%Q in
  if Qeq_bool averageCostBasis 0
  then mkProfitLossZones (profitHolders z) (lossHolders z) (S (breakEvenHolders z))
         (totalHolders z) (profitAmountUSD z) (lossAmountUSD z)
         (breakEvenAmountUSD z + currentValueUSD)%Q
  else
    let percentageChange := ((currentPrice - averageCostBasis) / averageCostBasis)%Q in
    if Qlt_bool breakEvenTolerance percentageChange
    then mkProfitLossZones (S (profitHolders z)) (lossHolders z) (breakEvenHolders z)
           (totalHolders z) (profitAmountUSD z + currentValueUSD)%Q (lossAmountUSD z)
           (breakEvenAmountUSD z)
    else if Qlt_bool percentageChange (- breakEvenTolerance)
    then mkProfitLossZones (profitHolders z) (S (lossHolders z)) (breakEvenHolders z)
           (totalHolders z) (profitAmountUSD z) (lossAmountUSD z + currentValueUSD)%Q
           (breakEvenAmountUSD z)
    else mkProfitLossZones (profitHolders z) (lossHolders z) (S (breakEvenHolders z))
           (totalHolders z) (profitAmountUSD z) (lossAmountUSD z)
           (breakEvenAmountUSD z + currentValueUSD)%Q.

Definition zones_of_rows (currentPrice : Q) (rows : list ZoneRow) : ProfitLossZones :=
  fold_left (zones_step currentPrice) rows
    (mkProfitLossZones 0 0 0 (List.length rows) 0%Q 0%Q 0%Q).

(** ** Analytics: price levels *)

(** A row of the [GROUP BY cb.price_per_token] query. *)
Record PriceRow := mkPriceRow {
  pr_price_per_token : Q;
  pr_total_amount : Z;
  pr_holder_count : nat
}.

(** A value of the [groupedData] map. *)
Record PriceGroup := mkPriceGroup {
  g_priceLevel : Q;
  g_totalAmount : Z;
  g_holderCount : nat
}.

(** An element of the array [getHolderPriceLevels] returns. *)
Record PriceLevel := mkPriceLevel {
  priceLevel : Q;
  holderCount : nat;
  pl_totalAmount : Z;
  percentageOfSupply : Q
}.

(** [JOIN holders h ON cb.holder_id = h.id WHERE h.token_id = $1 AND
    cb.remaining_amount > 0] *)
Definition token_lots (tokenId : nat) (d : Database) : list CostBasisRow :=
  filter (fun r =>
            (0 <? cb_remaining_amount r)
            && existsb (fun h => (h_id h =? cb_holder_id r)%nat && (h_token_id h =? tokenId)%nat)
                 (holders d))
         (cost_basis d).

Fixpoint distinct_prices (l : list Q) : list Q :=
  match l with
  | [] => []
  | p :: l' => if existsb (Qeq_bool p) l' then distinct_prices l' else p :: distinct_prices l'
  end.

Fixpoint insert_price (p : Q) (l : list Q) : list Q :=
  match l with
  | [] => [p]
  | q :: l' => if Qle_bool p q then p :: l else q :: insert_price p l'
  end.

(** [ORDER BY cb.price_per_token ASC] *)
Definition ascending (l : list Q) : list Q := fold_right insert_price [] l.

Definition lots_at (price : Q) (lots : list CostBasisRow) : list CostBasisRow :=
  filter (fun r => Qeq_bool (cb_price_per_token r) price) lots.

(** [COUNT(DISTINCT cb.holder_id)] *)
Definition distinct_holders (lots : list CostBasisRow) : nat :=
  List.length (nodup Nat.eq_dec (map cb_holder_id lots)).

Definition price_rows (tokenId : nat) (d : Database) : list PriceRow :=
  let lots := token_lots tokenId d in
  map (fun p => mkPriceRow p
                  (fold_right Z.add 0 (map cb_remaining_amount (lots_at p lots)))
                  (distinct_holders (lots_at p lots)))
      (ascending (distinct_prices (map cb_price_per_token lots))).

(** [Math.abs(price - existingPrice) / existingPrice * 100 <= priceRangePercent];
    with [existingPrice] zero the quotient is NaN or Infinity and the
    comparison is false. *)
Definition in_range (priceRangePercent price existingPrice : Q) : bool :=
  if Qeq_bool existingPrice 0 then false
  else Qle_bool (Qabs (price - existingPrice) / existingPrice * 100)%Q priceRangePercent.

(** The inner [for (const [existingPrice] of groupedData)] loop: the key of
    the first group in range, else the price itself. *)
Definition find_group_key (priceRangePercent price : Q) (groupedData : list (Q * PriceGroup)) : Q :=
  match find (fun kv => in_range priceRangePercent price (fst kv)) groupedData with
  | Some kv => fst kv
  | None => price
  end.

(** One turn of the outer loop; [groupedData] is the [Map], in insertion order. *)
Definition group_step (priceRangePercent : Q) (groupedData : list (Q * PriceGroup))
    (row : PriceRow) : list (Q * PriceGroup) :=
  let price := pr_price_per_token row in
  let groupKey := find_group_key priceRangePercent price groupedData in
  if existsb (fun kv => Qeq_bool (fst kv) groupKey) groupedData
  then map (fun kv =>
              if Qeq_bool (fst kv) groupKey
              then (fst kv, mkPriceGroup (g_priceLevel (snd kv))
                              (g_totalAmount (snd kv) + pr_total_amount row)
                              (g_holderCount (snd kv) + pr_holder_count row))
              else kv) groupedData
  else groupedData ++ [(groupKey, mkPriceGroup price (pr_total_amount row) (pr_holder_count row))].

Definition group_rows (priceRangePercent : Q) (rows : list PriceRow) : list (Q * PriceGroup) :=
  fold_left (group_step priceRangePercent) rows [].

Fixpoint insert_level (x : PriceLevel) (l : list PriceLevel) : list PriceLevel :=
  match l with
  | [] => [x]
  | y :: l' => if pl_totalAmount y <=? pl_totalAmount x then x :: l else y :: insert_level x l'
  end.

(** [priceLevels.sort((a, b) => parseFloat(b.totalAmount) - parseFloat(a.totalAmount))];
    the sort is stable. *)
Definition sort_by_amount_desc (l : list PriceLevel) : list PriceLevel :=
  fold_right insert_level [] l.

(** [SUM(current_balance::DECIMAL)] over the active holders of the token. *)
Definition circulating_supply (tokenId : nat) (d : Database) : Z :=
  or_zero_Z (sql_sum_Z (map h_current_balance
    (filter (fun h => (h_token_id h =? tokenId)%nat && h_is_active h) (holders d)))).

Definition price_levels (tokenId : nat) (priceRangePercent : Q) (d : Database)
  : list PriceLevel :=
  let circulatingSupply := circulating_supply tokenId d in
  sort_by_amount_desc
    (map (fun kv =>
            mkPriceLevel (fst kv) (g_holderCount (snd kv)) (g_totalAmount (snd kv))
              (if 0 <? circulatingSupply
               then (inject_Z (g_totalAmount (snd kv)) / inject_Z circulatingSupply * 100)%Q
               else 0%Q))
         (group_rows priceRangePercent (price_rows tokenId d))).

Section Analytics.

Variable fails : Stmt -> bool.

Definition calculateProfitLossZones (tokenId : nat) (currentPrice : Q) : M ProfitLossZones :=
  try_catch
    (query fails (SelectHolderZones tokenId) ;;;
     d <- get_db ;;
     ret (zones_of_rows currentPrice (zone_rows tokenId d)))
    (fun error => logger (LogError "Error calculating profit/loss zones:" error) ;;; throw error).

Definition getHolderPriceLevels (tokenId : nat) (priceRangePercent : Q) : M (list PriceLevel) :=
  try_catch
    (query fails (SelectSupply tokenId) ;;;
     query fails (SelectPriceDistribution tokenId) ;;;
     d <- get_db ;;
     ret (price_levels tokenId priceRangePercent d))
    (fun error => logger (LogError "Error getting holder price levels:" error) ;;; throw error).

End Analytics.

(** ** Vocabulary of the properties *)

(** *** Lots and sales *)


(** The lot with a given key. *)
Definition lot_by_id (id : nat) (d : Database) : option CostBasisRow :=
  find (fun r => (cb_id r =? id)%nat) (cost_basis d).

Definition sum_Z (l : list Z) : Z := fold_right Z.add 0 l.
Definition sum_Q (l : list Q) : Q := fold_right Qplus 0%Q l.

(** All the remaining amount of a holder's open lots. *)
Definition available (holderId : nat) (d : Database) : Z :=
  sum_Z (map cb_remaining_amount (open_lots holderId d)).

(** The remaining amount over all lots of a holder, open or not. *)
Definition lots_total (holderId : nat) (cb : list CostBasisRow) : Z :=
  sum_Z (map cb_remaining_amount (filter (fun r => (cb_holder_id r =? holderId)%nat) cb)).

(** Two [cost_basis] tables hold the same lots up to remaining amounts. *)
Definition same_lots (cb cb' : list CostBasisRow) : Prop :=
  map (fun r => with_remaining r 0) cb' = map (fun r => with_remaining r 0) cb.




(** *** What a transaction does to the rows *)

(** The key [ensureTokenExists] returns for an address, and the [tokens]
    table it leaves. *)
Definition token_id_for (tokenAddress : string) (d : Database) : nat :=
  match find (fun t => String.eqb (tk_address t) tokenAddress) (tokens d) with
  | Some t => tk_id t
  | None => fresh_id (map tk_id (tokens d))
  end.

Definition with_token (tokenAddress : string) (d : Database) : Database :=
  match find (fun t => String.eqb (tk_address t) tokenAddress) (tokens d) with
  | Some _ => d
  | None => mkDatabase (tokens d ++ [mkTokenRow (fresh_id (map tk_id (tokens d))) tokenAddress])
              (transactions d) (holders d) (cost_basis d)
  end.

(** The holder row of a transaction's wallet: its key, whether it is already
    there, and the [holders] table once it is. *)
Definition holder_id_for (transaction : TokenTransaction) (d : Database) : nat :=
  match find_holder (token_id_for (tokenAddress transaction) d) (walletAddress transaction) d with
  | Some h => h_id h
  | None => fresh_id (map h_id (holders d))
  end.

Definition position_for (transaction : TokenTransaction) (d : Database)
  : option HolderPosition :=
  match find_holder (token_id_for (tokenAddress transaction) d) (walletAddress transaction) d with
  | Some row => Some (mkHolderPosition (h_current_balance row) (h_total_bought row)
                        (h_total_sold row) (h_realized_pnl row))
  | None => None
  end.

Definition with_holder (transaction : TokenTransaction) (d : Database) : list HolderRow :=
  match find_holder (token_id_for (tokenAddress transaction) d) (walletAddress transaction) d with
  | Some _ => holders d
  | None => holders d ++ [new_holder (fresh_id (map h_id (holders d)))
                            (token_id_for (tokenAddress transaction) d)
                            (walletAddress transaction)]
  end.

(** The row [processTransaction] inserts into [transactions]. *)
Definition transaction_row (transaction : TokenTransaction) (d : Database) : TransactionRow :=
  mkTransactionRow (fresh_id (map tx_id (transactions d)))
    (token_id_for (tokenAddress transaction) d)
    (signature transaction) (walletAddress transaction)
    (transactionType transaction) (amount transaction) (pricePerToken transaction)
    (totalValue transaction) (blockTime transaction * 1000) (slot transaction).

(** The lot [addPurchase] inserts for a buy. *)
Definition purchase_lot (transaction : TokenTransaction) (d : Database) : CostBasisRow :=
  mkCostBasisRow (fresh_id (map cb_id (cost_basis d))) (holder_id_for transaction d)
    (fresh_id (map tx_id (transactions d)))
    (amount transaction) (amount transaction) (pricePerToken transaction)
    (blockTime transaction * 1000) (fresh_id (map cb_created_at (cost_basis d))).

(** Balance and totals of a holder after a transaction. *)
Definition balance_after (transaction : TokenTransaction) (p : option HolderPosition) : Z :=
  let b := match p with Some p => currentBalance p | None => 0 end in
  match transactionType transaction with
  | sell => b - amount transaction
  | _ => b + amount transaction
  end.

Definition bought_after (transaction : TokenTransaction) (p : option HolderPosition) : Z :=
  let b := match p with Some p => totalBought p | None => 0 end in
  match transactionType transaction with
  | buy => b + amount transaction
  | _ => b
  end.

Definition sold_after (transaction : TokenTransaction) (p : option HolderPosition) : Z :=
  let s := match p with Some p => totalSold p | None => 0 end in
  match transactionType transaction with
  | sell => s + amount transaction
  | _ => s
  end.

(** The [holders] table after the [UPDATE] of [updatePositionForTransaction],
    given the average buy price and the realized profit it writes. *)
Definition updated_holders (holderId : nat) (position : option HolderPosition)
    (transaction : TokenTransaction) (average pnl : Q) (hs : list HolderRow)
  : list HolderRow :=
  map (update_holder holderId (balance_after transaction position)
         (bought_after transaction position) (sold_after transaction position)
         average pnl (transactionType transaction) (blockTime transaction * 1000)) hs.

Definition realized_before (position : option HolderPosition) : Q :=
  match position with Some p => realizedPnl p | None => 0%Q end.

(** What one call of [updatePositionForTransaction] does to the lots [cb] on
    a store that does not fail: the lots [cb'] it leaves, the lines [w] it
    logs and the realized profit [pnl] it writes to the holder. *)
Definition ledger_effect (holderId transactionId : nat) (transaction : TokenTransaction)
    (position : option HolderPosition) (cb cb' : list CostBasisRow) (w : list LogLine)
    (pnl : Q) : Prop :=
  match transactionType transaction with
  | buy =>
      cb' = cb ++
            [mkCostBasisRow (fresh_id (map cb_id cb)) holderId transactionId
               (amount transaction) (amount transaction) (pricePerToken transaction)
               (blockTime transaction * 1000) (fresh_id (map cb_created_at cb))]
      /\ w = [] /\ pnl = realized_before position
  | sell =>
      exists salePnl,
        pnl = (realized_before position + salePnl)%Q
        /\ forall st, cost_basis (db st) = cb ->
             processSale reliable holderId (amount transaction) (pricePerToken transaction) st
             = (Ok salePnl, mkStore (set_cost_basis cb' (db st)) (log st ++ w))
  | transfer => cb' = cb /\ w = [] /\ pnl = realized_before position
  end.

(** *** Conservation *)





(** *** Zones and price levels *)

(** The zones of the specification: with
    [pct = (currentPrice - averageCostBasis) / averageCostBasis], profit is
    [pct > tolerance], loss is [pct < - tolerance], anything else is
    break-even, and so is a holder without cost basis. *)
Inductive Zone := Profit | Loss | BreakEven.

Definition Zone_eqb (a b : Zone) : bool :=
  match a, b with
  | Profit, Profit | Loss, Loss | BreakEven, BreakEven => true
  | _, _ => false
  end.

Definition percentage_change (currentPrice averageCostBasis : Q) : Q :=
  ((currentPrice - averageCostBasis) / averageCostBasis)%Q.

Definition zone_of (currentPrice averageCostBasis : Q) : Zone :=
  if Qeq_bool averageCostBasis 0 then BreakEven
  else if Qlt_bool breakEvenTolerance (percentage_change currentPrice averageCostBasis)
  then Profit
  else if Qlt_bool (percentage_change currentPrice averageCostBasis) (- breakEvenTolerance)
  then Loss
  else BreakEven.

Definition rows_in_zone (z : Zone) (currentPrice : Q) (rows : list ZoneRow) : list ZoneRow :=
  filter (fun r => Zone_eqb (zone_of currentPrice (zr_average_cost_basis r)) z) rows.

Definition value_in_zone (z : Zone) (currentPrice : Q) (rows : list ZoneRow) : Q :=
  sum_Q (map (fun r => (inject_Z (zr_current_balance r) * currentPrice)%Q)
             (rows_in_zone z currentPrice rows)).

(** The order of the array [getHolderPriceLevels] returns. *)
Definition larger_first (a b : PriceLevel) : Prop := pl_totalAmount b <= pl_totalAmount a.


(** *** Scenarios *)

Definition buy_A : TokenTransaction :=
  mkTokenTransaction "buy-A" "MONKE" "wallet-1" buy 100 1 100 1700000000 1.

Definition buy_B : TokenTransaction :=
  mkTokenTransaction "buy-B" "MONKE" "wallet-1" buy 100 2 200 1700000060 2.

Definition sell_C : TokenTransaction :=
  mkTokenTransaction "sell-C" "MONKE" "wallet-1" sell 150 3 450 1700000120 3.

(** The holder of the scenario: bought 100 at $1 (lot A), then 100 at $2
    (lot B). *)
Definition lot_A_and_lot_B : Store :=
  snd (processAll reliable [buy_A; buy_B] initial_store).

(** A holder that bought 100 and sold them all. *)
Definition sold_out : Store :=
  snd (processAll reliable
         [buy_A;
          mkTokenTransaction "sell-all" "MONKE" "wallet-1" sell 100 2 200 1700000060 2]
         initial_store).


(** One holder with two open lots, bought at $100 and at $101. *)
Definition one_holder_two_prices : Store :=
  snd (processAll reliable
         [mkTokenTransaction "p-100" "MONKE" "wallet-1" buy 100 100 10000 1700000000 1;
          mkTokenTransaction "p-101" "MONKE" "wallet-1" buy 100 101 10100 1700000060 2]
         initial_store).

Definition t1 : TokenTransaction :=
  mkTokenTransaction "t1" "MONKE" "wallet-1" buy 100 1 100 1700000000 1.

Definition t2 : TokenTransaction :=
  mkTokenTransaction "t2" "MONKE" "wallet-2" buy 40 2 80 1700000060 2.

Definition t3 : TokenTransaction :=
  mkTokenTransaction "t3" "MONKE" "wallet-3" buy 7 2 14 1700000090 3.

(** A store on which the [UPDATE] of the holder row fails. *)
Definition holder_update_fails : Stmt -> bool :=
  fun s => match s with UpdateHolder _ => true | _ => false end.

(** A store on which the [COMMIT] of [processTransaction] fails. *)
Definition transaction_commit_fails : Stmt -> bool :=
  fun s => match s with CommitTransaction _ => true | _ => false end.

(** A store on which the [INSERT] of the transaction ["t1"] fails. *)
Definition insert_of_t1_fails : Stmt -> bool :=
  fun s => match s with InsertTransaction sig => String.eqb sig "t1" | _ => false end.

(** * The rest of the two classes *)

(** ** More of FIFOCostBasisCalculator *)

(** The statements of the methods below. *)
Inductive MoreStmt :=
| SelectBreakdown (holderId : nat)
| DeleteZeroLots (holderId : option nat)
| SelectAverageBuyPrice (tokenId : nat)
| SelectMedianBuyPrice (tokenId : nat).

(** [CostBasisEntry], an element of what [getCostBasisBreakdown] returns. *)
Record CostBasisEntry := mkCostBasisEntry {
  e_id : nat;
  e_holderId : nat;
  e_transactionId : nat;
  e_remainingAmount : Z;
  e_originalAmount : Z;
  e_pricePerToken : Q;
  e_purchaseTimestamp : Z
}.

Definition entry_of_row (row : CostBasisRow) : CostBasisEntry :=
  mkCostBasisEntry (cb_id row) (cb_holder_id row) (cb_transaction_id row)
    (cb_remaining_amount row) (cb_original_amount row) (cb_price_per_token row)
    (cb_purchase_timestamp row).

(** [DELETE FROM cost_basis WHERE remaining_amount = 0], with
    [AND holder_id = $1] when a holder is given. *)
Definition is_deleted_by_cleanup (holderId : option nat) (r : CostBasisRow) : bool :=
  (cb_remaining_amount r =? 0)
  && match holderId with
     | Some h => (cb_holder_id r =? h)%nat
     | None => true
     end.

Definition delete_zero_lots (holderId : option nat) (d : Database) : Database :=
  set_cost_basis (filter (fun r => negb (is_deleted_by_cleanup holderId r)) (cost_basis d)) d.

(** [AVG(average_buy_price)] over the holders of a token with
    [is_active = true AND current_balance > 0]; [NULL] over no rows. *)
Definition sql_avg_Q (l : list Q) : option Q :=
  match l with
  | [] => None
  | _ => Some (fold_right Qplus 0%Q l / inject_Z (Z.of_nat (List.length l)))%Q
  end.

(** [PERCENTILE_CONT(0.5) WITHIN GROUP (ORDER BY ..)]: the middle value of
    the sorted rows, half way between the two middle ones when their number
    is even; [NULL] over no rows. *)
Definition percentile_cont_half (l : list Q) : option Q :=
  match ascending l with
  | [] => None
  | sorted =>
      let n := List.length sorted in
      let low := nth ((n - 1) / 2) sorted 0%Q in
      let high := nth (n / 2) sorted 0%Q in
      Some (low + (high - low) * (1 # 2))%Q
  end.

Definition average_buy_prices (tokenId : nat) (d : Database) : list Q :=
  map h_average_buy_price (filter (is_active_holder_of tokenId) (holders d)).

Definition positive_average_buy_prices (tokenId : nat) (d : Database) : list Q :=
  filter (fun q => Qlt_bool 0 q) (average_buy_prices tokenId d).

(** What [getAnalyticsSummary] returns. *)
Record AnalyticsSummary := mkAnalyticsSummary {
  s_totalHolders : nat;
  s_profitLossBreakdown : ProfitLossZones;
  s_topPriceLevels : list PriceLevel;
  s_averageHolderCostBasis : Q;
  s_medianHolderCostBasis : Q
}.

Section MoreCalculator.

Variable fails : Stmt -> bool.

(** The error the store raises on a statement of these methods, if any. *)
Variable more_fails : MoreStmt -> option Error.

Definition more_query (s : MoreStmt) : M unit :=
  fun st => match more_fails s with
            | Some error => (Throw error, st)
            | None => (Ok tt, st)
            end.

Definition getCostBasisBreakdown (holderId : nat) : M (list CostBasisEntry) :=
  try_catch
    (more_query (SelectBreakdown holderId) ;;;
     d <- get_db ;;
     ret (map entry_of_row (fifo_lots holderId d)))
    (fun error => logger (LogError "Error getting cost basis breakdown:" error) ;;; throw error).

(** [holderId] is optional; the [if (holderId)] of the source takes the
    branch for every key. *)
Definition cleanupCostBasis (holderId : option nat) : M unit :=
  try_catch
    (more_query (DeleteZeroLots holderId) ;;;
     modify_db (delete_zero_lots holderId))
    (fun error => logger (LogError "Error cleaning up cost basis entries:" error) ;;; throw error).

(** [getAnalyticsSummary]; [getHolderPriceLevels] is called with its default
    range of 5 percent, and [slice(0, 10)] keeps the first ten levels. *)
Definition getAnalyticsSummary (tokenId : nat) (currentPrice : Q) : M AnalyticsSummary :=
  try_catch
    (profitLossBreakdown <- calculateProfitLossZones fails tokenId currentPrice ;;
     topPriceLevels <- getHolderPriceLevels fails tokenId 5%Q ;;
     more_query (SelectAverageBuyPrice tokenId) ;;;
     more_query (SelectMedianBuyPrice tokenId) ;;;
     d <- get_db ;;
     ret (mkAnalyticsSummary (totalHolders profitLossBreakdown) profitLossBreakdown
            (firstn 10 topPriceLevels)
            (or_zero_Q (sql_avg_Q (average_buy_prices tokenId d)))
            (or_zero_Q (percentile_cont_half (positive_average_buy_prices tokenId d)))))
    (fun error => logger (LogError "Error getting analytics summary:" error) ;;; throw error).

End MoreCalculator.

(** The methods above on a store that does not fail. *)
Definition more_reliable : MoreStmt -> option Error := fun _ => None.

(** ** More of TransactionProcessor *)

Fixpoint insert_by_blockTime (x : TokenTransaction) (l : list TokenTransaction)
  : list TokenTransaction :=
  match l with
  | [] => [x]
  | y :: l' => if blockTime x <=? blockTime y then x :: l else y :: insert_by_blockTime x l'
  end.

(** [transactions.sort((a, b) => a.blockTime - b.blockTime)]; the sort is
    stable. *)
Definition sort_by_blockTime (l : list TokenTransaction) : list TokenTransaction :=
  fold_right insert_by_blockTime [] l.

(** [processHistoricalData]; [fetched] is what
    [client.getHistoricalTransactions] returned or threw. *)
Definition processHistoricalData (fails : Stmt -> bool) (tokenAddress : string)
    (fetched : Outcome (list TokenTransaction)) : M unit :=
  try_catch
    (match fetched with
     | Throw error => throw error
     | Ok l => processAll fails (sort_by_blockTime l)
     end)
    (fun error =>
       logger (LogError ("Error processing historical data for " ++ tokenAddress ++ ":")
                 error) ;;;
       throw error).

(** [getStats] *)
Definition getStats (p : Processor) : nat * bool :=
  (List.length (processingQueue p), isProcessing p).

(** ** Vocabulary of the further properties *)

(** [m] returns normally only where [m'] does, with the same result. *)
Definition succeeds_alike {A} (m m' : M A) : Prop :=
  forall st a st', m st = (Ok a, st') -> m' st = (Ok a, st').

(** [m] writes no row of [tokens], [transactions] or [holders]. *)
Definition keeps_client_tables {A} (m : M A) : Prop :=
  forall st,
    tokens (db (snd (m st))) = tokens (db st)
    /\ transactions (db (snd (m st))) = transactions (db st)
    /\ holders (db (snd (m st))) = holders (db st).

(** A lot holds between nothing and what was bought. *)
Definition lot_in_bounds (r : CostBasisRow) : Prop :=
  0 <= cb_remaining_amount r <= cb_original_amount r.

(** A store on which the [UPDATE] of the lot with key 2 fails. *)
Definition second_lot_update_fails : Stmt -> bool :=
  fun s => match s with UpdateCostBasis id => (id =? 2)%nat | _ => false end.




(** *** Keys and aggregates of the rows a transaction writes *)











(** *** What happens to the lots *)

(** Distinct keys, and every lot in bounds. *)
Definition lots_well_formed (cb : list CostBasisRow) : Prop :=
  NoDup (map cb_id cb) /\ Forall lot_in_bounds cb.

(** Every lot of [cb] is still in [cb'], the same but for what remains of
    it, which is no more than before. *)
Definition lots_only_shrink (cb cb' : list CostBasisRow) : Prop :=
  forall r, In r cb ->
    exists r', In r' cb'
               /\ with_remaining r' 0 = with_remaining r 0
               /\ cb_remaining_amount r' <= cb_remaining_amount r.

(** [m] keeps the lots well formed and only shrinks them. *)
Definition lots_step {A} (m : M A) : Prop :=
  forall st, lots_well_formed (cost_basis (db st)) ->
    lots_well_formed (cost_basis (db (snd (m st))))
    /\ lots_only_shrink (cost_basis (db st)) (cost_basis (db (snd (m st)))).

(** The order in which [processHistoricalData] applies transactions. *)
Definition by_block_time (a b : TokenTransaction) : Prop := blockTime a <= blockTime b.

(** *** Price levels *)



(** *** Reading *)

(** [m] writes no row, and logs nothing when it returns. *)
Definition reads_only {A} (m : M A) : Prop :=
  forall st,
    db (snd (m st)) = db st
    /\ (forall a, fst (m st) = Ok a -> log (snd (m st)) = log st).

(** * The feed client (solanaTrackerClient.ts)

    The state of [SolanaTrackerClient] and the methods that change it.  The
    socket is seen through what the client sends on it and the timer it
    sets; of the events it emits to its listeners only
    [maxReconnectAttemptsReached] is kept. *)

Module SolanaTrackerClient.

Inductive Effect :=
| Send_subscribe (tokenAddress : string)
| Send_unsubscribe (tokenAddress : string)
| Send_subscribe_launches
| SetTimeout (delay : Z)
| Emit_maxReconnectAttemptsReached.

Record Client := mkClient {
  ws : bool;
  reconnectAttempts : nat;
  reconnectDelay : Z;
  heartbeatInterval : bool;
  isConnected : bool;
  subscribedTokens : list string
}.

Definition maxReconnectAttempts : nat := 10.

(** A client as the constructor leaves it. *)
Definition new_client : Client := mkClient false 0 1000 false false [].

(** [Set.add] and [Set.delete]; the list keeps the insertion order. *)
Definition set_add (x : string) (s : list string) : list string :=
  if existsb (String.eqb x) s then s else s ++ [x].

Definition set_delete (x : string) (s : list string) : list string :=
  filter (fun y => negb (String.eqb x y)) s.

Definition subscribeToToken (tokenAddress : string) (c : Client) : Client * list Effect :=
  if negb (isConnected c) || negb (ws c) then (c, [])
  else (mkClient (ws c) (reconnectAttempts c) (reconnectDelay c) (heartbeatInterval c)
          (isConnected c) (set_add tokenAddress (subscribedTokens c)),
        [Send_subscribe tokenAddress]).

Definition unsubscribeFromToken (tokenAddress : string) (c : Client) : Client * list Effect :=
  if negb (isConnected c) || negb (ws c) then (c, [])
  else (mkClient (ws c) (reconnectAttempts c) (reconnectDelay c) (heartbeatInterval c)
          (isConnected c) (set_delete tokenAddress (subscribedTokens c)),
        [Send_unsubscribe tokenAddress]).

Definition subscribeToNewLaunches (c : Client) : Client * list Effect :=
  if negb (isConnected c) || negb (ws c) then (c, []) else (c, [Send_subscribe_launches]).

(** [connect]: a new socket is made; [opened] says whether it opens.  When
    it does, the two handlers of [open] run; when it does not, the promise
    is rejected. *)
Definition connect (opened : bool) (c : Client) : bool * Client :=
  if opened
  then (true, mkClient true 0 1000 true true (subscribedTokens c))
  else (false, mkClient true (reconnectAttempts c) (reconnectDelay c) (heartbeatInterval c)
                 (isConnected c) (subscribedTokens c)).

Definition handleReconnection (c : Client) : Client * list Effect :=
  if (maxReconnectAttempts <=? reconnectAttempts c)%nat
  then (c, [Emit_maxReconnectAttemptsReached])
  else
    let attempts := S (reconnectAttempts c) in
    let delay := Z.min (reconnectDelay c * 2 ^ (Z.of_nat attempts - 1)) 30000 in
    (mkClient (ws c) attempts (reconnectDelay c) (heartbeatInterval c) (isConnected c)
       (subscribedTokens c),
     [SetTimeout delay]).

(** The [for (const tokenAddress of this.subscribedTokens)] loop. *)
Fixpoint resubscribe (tokenAddresses : list string) (c : Client) : Client * list Effect :=
  match tokenAddresses with
  | [] => (c, [])
  | tokenAddress :: rest =>
      let (c1, sent) := subscribeToToken tokenAddress c in
      let (c2, more) := resubscribe rest c1 in
      (c2, sent ++ more)
  end.

(** The callback of the timer that [handleReconnection] sets. *)
Definition reconnect (opened : bool) (c : Client) : Client * list Effect :=
  let (connected, c1) := connect opened c in
  if connected then resubscribe (subscribedTokens c1) c1 else handleReconnection c1.

(** The handler of the socket's [close]. *)
Definition closed (c : Client) : Client * list Effect :=
  handleReconnection
    (mkClient (ws c) (reconnectAttempts c) (reconnectDelay c) false false
       (subscribedTokens c)).

Definition disconnect (c : Client) : Client :=
  mkClient false (reconnectAttempts c) (reconnectDelay c) false false [].

(** What happens to a client. *)
Inductive Event :=
| Connect (opened : bool)
| Closed
| Reconnect (opened : bool)
| SubscribeToToken (tokenAddress : string)
| UnsubscribeFromToken (tokenAddress : string)
| SubscribeToNewLaunches
| Disconnect.

Definition step (c : Client) (e : Event) : Client * list Effect :=
  match e with
  | Connect opened => (snd (connect opened c), [])
  | Closed => closed c
  | Reconnect opened => reconnect opened c
  | SubscribeToToken tokenAddress => subscribeToToken tokenAddress c
  | UnsubscribeFromToken tokenAddress => unsubscribeFromToken tokenAddress c
  | SubscribeToNewLaunches => subscribeToNewLaunches c
  | Disconnect => (disconnect c, [])
  end.

Fixpoint run (events : list Event) (c : Client) : Client * list Effect :=
  match events with
  | [] => (c, [])
  | e :: rest =>
      let (c1, out) := step c e in
      let (c2, more) := run rest c1 in
      (c2, out ++ more)
  end.

(** What holds of a client at all times. *)
Definition well_formed (c : Client) : Prop :=
  reconnectDelay c = 1000
  /\ (reconnectAttempts c <= maxReconnectAttempts)%nat
  /\ NoDup (subscribedTokens c)
  /\ (isConnected c = true -> ws c = true).

Definition delay_in_bounds (e : Effect) : Prop :=
  match e with
  | SetTimeout delay => 1000 <= delay <= 30000
  | _ => True
  end.

End SolanaTrackerClient.

(** The delay before the [k+1]-th attempt to reconnect: one second, doubled
    at each attempt, and thirty seconds from the sixth attempt on. *)
Definition backoff (k : nat) : Z :=
  if (k <? 5)%nat then 1000 * 2 ^ Z.of_nat k else 30000.


(** * Properties *)

(** ** The FIFO order *)




Lemma insert_lot_perm (x : CostBasisRow) (l : list CostBasisRow) :
  Permutation (insert_lot x l) (x :: l).
Proof.
  induction l as [|y l IH]; simpl.
  - apply Permutation_refl.
  - destruct (lot_leb x y).
    + apply Permutation_refl.
    + eapply perm_trans; [apply perm_skip, IH | apply perm_swap].
Qed.

Lemma order_by_purchase_perm (l : list CostBasisRow) :
  Permutation (order_by_purchase l) l.
Proof.
  induction l as [|x l IH]; simpl.
  - constructor.
  - eapply perm_trans; [apply insert_lot_perm | apply perm_skip, IH].
Qed.



Lemma fifo_lots_open (holderId : nat) (d : Database) (lot : CostBasisRow) :
  In lot (fifo_lots holderId d) ->
  In lot (cost_basis d) /\ cb_holder_id lot = holderId /\ 0 < cb_remaining_amount lot.
Proof.
  intros H.
  apply (Permutation_in _ (order_by_purchase_perm _)) in H.
  unfold open_lots in H. apply filter_In in H. destruct H as [Hin H].
  unfold is_open_lot_of in H. apply andb_true_iff in H.
  rewrite Nat.eqb_eq, Z.ltb_lt in H. tauto.
Qed.

(** ** Lots found by key *)

Lemma lot_by_id_unique (d : Database) (r : CostBasisRow) :
  NoDup (map cb_id (cost_basis d)) -> In r (cost_basis d) ->
  lot_by_id (cb_id r) d = Some r.
Proof.
  unfold lot_by_id. induction (cost_basis d) as [|x l IH]; simpl; [tauto|].
  intros Hnd [->|Hin].
  - rewrite Nat.eqb_refl. reflexivity.
  - inversion Hnd as [|? ? Hx Hl]; subst.
    destruct (Nat.eqb_spec (cb_id x) (cb_id r)) as [E|E].
    + exfalso. apply Hx. rewrite E. apply in_map. assumption.
    + apply IH; assumption.
Qed.





(** ** The loop of [processSale] on a store that does not fail *)

Lemma sale_loop_break entries salePrice pnl outstanding st :
  outstanding <= 0 ->
  sale_loop reliable entries salePrice pnl outstanding st = (Ok (pnl, outstanding), st).
Proof.
  intros H. destruct entries; simpl; [reflexivity|].
  apply Z.leb_le in H. rewrite H. reflexivity.
Qed.

Lemma sale_loop_step entry rest salePrice pnl outstanding st :
  0 < outstanding ->
  let used := Z.min outstanding (cb_remaining_amount entry) in
  sale_loop reliable (entry :: rest) salePrice pnl outstanding st
  = sale_loop reliable rest salePrice
      (pnl + inject_Z used * (salePrice - cb_price_per_token entry))%Q
      (outstanding - used)
      (set_db (update_remaining (cb_id entry) (cb_remaining_amount entry - used) (db st)) st).
Proof.
  intros H used. simpl.
  destruct (outstanding <=? 0) eqn:E; [apply Z.leb_le in E; lia|].
  reflexivity.
Qed.





Lemma set_remaining_other id v r : cb_id r <> id -> set_remaining id v r = r.
Proof.
  intros H. unfold set_remaining.
  destruct (Nat.eqb_spec (cb_id r) id); [contradiction | reflexivity].
Qed.

Lemma set_remaining_self v r : set_remaining (cb_id r) v r = with_remaining r v.
Proof. unfold set_remaining. rewrite Nat.eqb_refl. reflexivity. Qed.

Lemma map_cb_id_set_remaining id v (cb : list CostBasisRow) :
  map cb_id (map (set_remaining id v) cb) = map cb_id cb.
Proof.
  rewrite map_map. apply map_ext. intros r. unfold set_remaining.
  destruct (cb_id r =? id)%nat; reflexivity.
Qed.

Lemma same_lots_refl cb : same_lots cb cb.
Proof. reflexivity. Qed.

Lemma same_lots_trans cb1 cb2 cb3 :
  same_lots cb1 cb2 -> same_lots cb2 cb3 -> same_lots cb1 cb3.
Proof. unfold same_lots. congruence. Qed.

Lemma same_lots_set_remaining id v cb : same_lots cb (map (set_remaining id v) cb).
Proof.
  unfold same_lots. rewrite map_map. apply map_ext. intros r. unfold set_remaining.
  destruct (cb_id r =? id)%nat; reflexivity.
Qed.





Lemma open_lots_keys (holderId : nat) (d : Database) :
  NoDup (map cb_id (cost_basis d)) -> NoDup (map cb_id (open_lots holderId d)).
Proof.
  unfold open_lots.
  induction (cost_basis d) as [|r cb IH]; intros Hnd; [constructor|].
  inversion Hnd as [|? ? Hr Hcb]; subst. cbn [filter].
  destruct (is_open_lot_of holderId r); [|exact (IH Hcb)].
  cbn [map]. constructor; [|exact (IH Hcb)].
  intros Hin. apply Hr. apply in_map_iff in Hin. destruct Hin as (r' & <- & Hr').
  apply in_map. apply filter_In in Hr'. tauto.
Qed.

Lemma fifo_lots_keys (holderId : nat) (d : Database) :
  NoDup (map cb_id (cost_basis d)) -> NoDup (map cb_id (fifo_lots holderId d)).
Proof.
  intros H. unfold fifo_lots.
  eapply Permutation_NoDup.
  - apply Permutation_map, Permutation_sym, order_by_purchase_perm.
  - apply open_lots_keys. assumption.
Qed.






(** ** C1: FIFO consumption *)



(** ** [processSale] always returns on a store that does not fail

    and what it returns depends on the lots only. *)

Lemma sale_loop_uniform entries : forall salePrice pnl outstanding cb,
  exists r cb',
    same_lots cb cb'
    /\ forall st, cost_basis (db st) = cb ->
        sale_loop reliable entries salePrice pnl outstanding st
        = (Ok r, set_db (set_cost_basis cb' (db st)) st).
Proof.
  induction entries as [|entry rest IH]; intros salePrice pnl outstanding cb.
  - exists (pnl, outstanding), cb. split; [apply same_lots_refl|].
    intros st <-. destruct st as [[] ?]; reflexivity.
  - destruct (Z.le_gt_cases outstanding 0) as [H|H].
    + exists (pnl, outstanding), cb. split; [apply same_lots_refl|].
      intros st <-. rewrite sale_loop_break by assumption.
      destruct st as [[] ?]; reflexivity.
    + set (used := Z.min outstanding (cb_remaining_amount entry)).
      destruct (IH salePrice
                  (pnl + inject_Z used * (salePrice - cb_price_per_token entry))%Q
                  (outstanding - used)
                  (map (set_remaining (cb_id entry) (cb_remaining_amount entry - used)) cb))
        as (r & cb' & Hsame & Hrun).
      exists r, cb'. split.
      * eapply same_lots_trans; [apply same_lots_set_remaining | exact Hsame].
      * intros st <-. rewrite sale_loop_step by lia. fold used.
        rewrite Hrun by reflexivity.
        destruct st as [[] ?]; reflexivity.
Qed.

Lemma processSale_uniform holderId saleAmount salePrice cb :
  exists pnl cb' w,
    same_lots cb cb'
    /\ forallb is_warning w = true
    /\ forall st, cost_basis (db st) = cb ->
        processSale reliable holderId saleAmount salePrice st
        = (Ok pnl, mkStore (set_cost_basis cb' (db st)) (log st ++ w)).
Proof.
  set (lots := order_by_purchase (filter (is_open_lot_of holderId) cb)).
  destruct lots as [|e l] eqn:El.
  - exists 0%Q, cb, [LogWarn (NoCostBasisEntries holderId)].
    split; [apply same_lots_refl | split; [reflexivity|]].
    intros st <-.
    unfold processSale, bind, try_catch, get_db, query.
    change (reliable (SelectCostBasis holderId)) with false. cbn [db].
    unfold fifo_lots, open_lots. fold lots. rewrite El.
    destruct st as [[] ?]; reflexivity.
  - destruct (sale_loop_uniform (e :: l) salePrice 0%Q saleAmount cb)
      as ([pnl out] & cb' & Hsame & Hrun).
    exists pnl, cb', (if 0 <? out then [LogWarn (SaleExceedsCostBasis saleAmount out)] else []).
    split; [assumption | split; [destruct (0 <? out); reflexivity|]].
    intros st Hst.
    unfold processSale, bind, try_catch, get_db, query.
    change (reliable (SelectCostBasis holderId)) with false.
    change (reliable (CommitSale holderId)) with false. cbn [db].
    unfold fifo_lots, open_lots. rewrite Hst. fold lots. rewrite El.
    rewrite (Hrun st Hst). cbn [db set_db].
    destruct (0 <? out).
    + reflexivity.
    + rewrite app_nil_r. reflexivity.
Qed.

(** ** The steps of [processTransaction] on a store that does not fail *)

Lemma ensureTokenExists_reliable tokenAddress st :
  ensureTokenExists reliable tokenAddress st
  = (Ok (token_id_for tokenAddress (db st)), set_db (with_token tokenAddress (db st)) st).
Proof.
  unfold ensureTokenExists, token_id_for, with_token, bind, get_db, query.
  change (reliable (SelectToken tokenAddress)) with false. cbn [db].
  destruct (find _ (tokens (db st))).
  - destruct st as [[] ?]; reflexivity.
  - reflexivity.
Qed.

Lemma getTotalCostBasis_reliable holderId st :
  getTotalCostBasis reliable holderId st = (Ok (or_zero_Q (sum_cost holderId (db st))), st).
Proof. reflexivity. Qed.

Lemma addPurchase_reliable holderId transactionId amount price time st :
  addPurchase reliable holderId transactionId amount price time st
  = (Ok tt,
     set_db (set_cost_basis
               (cost_basis (db st) ++
                [mkCostBasisRow (fresh_id (map cb_id (cost_basis (db st)))) holderId
                   transactionId amount amount price time
                   (fresh_id (map cb_created_at (cost_basis (db st))))])
               (db st)) st).
Proof. reflexivity. Qed.

(** Runs the statements that follow the lot update in
    [updatePositionForTransaction]: the optional [getTotalCostBasis] and the
    [UPDATE] of the holder row. *)
Ltac run_holder_update holderId :=
  unfold bind, query;
  rewrite ?getTotalCostBasis_reliable;
  change (reliable (UpdateHolder holderId)) with false;
  unfold ret, modify_db;
  cbn [db log set_db set_cost_basis set_holders tokens transactions holders cost_basis];
  rewrite ?app_nil_r.

Lemma updatePositionForTransaction_reliable holderId position transaction transactionId st :
  exists average pnl cb' w,
    updatePositionForTransaction reliable holderId position transaction transactionId st
    = (Ok tt,
       mkStore (mkDatabase (tokens (db st)) (transactions (db st))
                  (updated_holders holderId position transaction average pnl (holders (db st)))
                  cb')
         (log st ++ w))
    /\ ledger_effect holderId transactionId transaction position (cost_basis (db st)) cb' w pnl.
Proof.
  unfold updatePositionForTransaction, ledger_effect, updated_holders,
    balance_after, bought_after, sold_after, realized_before.
  destruct (transactionType transaction) eqn:Etype.
  - (* buy *)
    unfold bind at 1 2. rewrite addPurchase_reliable. unfold ret at 1.
    cbv iota beta.
    match goal with |- context [if ?c then _ else _] => destruct c end;
      (eexists _, _, _, []; split; [|split; [reflexivity | split; reflexivity]]);
      run_holder_update holderId; reflexivity.
  - (* sell *)
    destruct (processSale_uniform holderId (amount transaction) (pricePerToken transaction)
                (cost_basis (db st))) as (salePnl & cb' & w & Hsame & Hw & Hrun).
    unfold bind at 1 2 3. rewrite (Hrun st eq_refl). unfold ret at 1.
    cbv iota beta.
    match goal with |- context [if ?c then _ else _] => destruct c end;
      (eexists _, _, cb', w; split; [|exists salePnl; split; [reflexivity | exact Hrun]]);
      run_holder_update holderId; reflexivity.
  - (* transfer *)
    unfold bind at 1 2. unfold ret at 1. cbv iota beta.
    match goal with |- context [if ?c then _ else _] => destruct c end;
      (eexists _, _, _, []; split; [|split; [reflexivity | split; reflexivity]]);
      run_holder_update holderId; destruct st as [[] ?]; reflexivity.
Qed.

Lemma find_app_none (A : Type) (f : A -> bool) (l l' : list A) :
  find f l = None -> find f (l ++ l') = find f l'.
Proof.
  induction l as [|x l IH]; simpl; [reflexivity|].
  destruct (f x); [discriminate | exact IH].
Qed.

Lemma updateHolderPosition_reliable transaction transactionId st :
  let tokenId := token_id_for (tokenAddress transaction) (db st) in
  exists average pnl cb' w,
    updateHolderPosition reliable tokenId (walletAddress transaction) transaction
      transactionId st
    = (Ok tt,
       mkStore (mkDatabase (tokens (db st)) (transactions (db st))
                  (updated_holders (holder_id_for transaction (db st))
                     (position_for transaction (db st)) transaction average pnl
                     (with_holder transaction (db st)))
                  cb')
         (log st ++ w))
    /\ ledger_effect (holder_id_for transaction (db st)) transactionId transaction
         (position_for transaction (db st)) (cost_basis (db st)) cb' w pnl.
Proof.
  intros tokenId.
  unfold updateHolderPosition, holder_id_for, position_for, with_holder.
  fold tokenId.
  unfold bind at 1 2, query, get_db.
  change (reliable (SelectHolder tokenId (walletAddress transaction))) with false.
  cbv iota beta.
  destruct (find_holder tokenId (walletAddress transaction) (db st)) as [row|].
  - apply updatePositionForTransaction_reliable.
  - unfold bind at 1 2, query, modify_db.
    change (reliable (InsertHolder tokenId (walletAddress transaction))) with false.
    cbv iota beta.
    match goal with |- context [updatePositionForTransaction _ ?h ?p ?t ?i ?s] =>
      destruct (updatePositionForTransaction_reliable h p t i s)
        as (average & pnl & cb' & w & Hrun & Heffect) end.
    exists average, pnl, cb', w. split; [exact Hrun | exact Heffect].
Qed.

Lemma processTransaction_duplicate fails transaction st :
  fails (SelectTransaction (signature transaction)) = false ->
  signature_exists (signature transaction) (db st) = true ->
  processTransaction fails transaction st = (Ok tt, st).
Proof.
  intros Hselect Hexists.
  unfold processTransaction, bind, try_catch, get_db, query.
  rewrite Hselect. cbv iota beta. rewrite Hexists.
  unfold client_rollback, modify_db, ret. destruct st as [[] ?]; reflexivity.
Qed.

Lemma processTransaction_reliable_new transaction st :
  signature_exists (signature transaction) (db st) = false ->
  exists average pnl cb' w,
    processTransaction reliable transaction st
    = (Ok tt,
       mkStore (mkDatabase (tokens (with_token (tokenAddress transaction) (db st)))
                  (transactions (db st) ++ [transaction_row transaction (db st)])
                  (updated_holders (holder_id_for transaction (db st))
                     (position_for transaction (db st)) transaction average pnl
                     (with_holder transaction (db st)))
                  cb')
         (log st ++ w))
    /\ ledger_effect (holder_id_for transaction (db st))
         (fresh_id (map tx_id (transactions (db st)))) transaction
         (position_for transaction (db st)) (cost_basis (db st)) cb' w pnl.
Proof.
  intros Hnew.
  set (st1 := mkStore
                (mkDatabase (tokens (with_token (tokenAddress transaction) (db st)))
                   (transactions (db st) ++ [transaction_row transaction (db st)])
                   (holders (db st)) (cost_basis (db st)))
                (log st)).
  assert (Htoken : token_id_for (tokenAddress transaction) (db st1)
                   = token_id_for (tokenAddress transaction) (db st)).
  { unfold token_id_for, st1. cbn [db tokens]. unfold with_token.
    destruct (find _ (tokens (db st))) eqn:E; cbn [tokens].
    - rewrite E. reflexivity.
    - rewrite (find_app_none _ _ _ _ E). cbn [find tk_address tk_id].
      rewrite String.eqb_refl. reflexivity. }
  destruct (updateHolderPosition_reliable transaction
              (fresh_id (map tx_id (transactions (db st)))) st1)
    as (average & pnl & cb' & w & Hrun & Heffect).
  cbv zeta in Hrun. rewrite Htoken in Hrun.
  assert (Hh : holder_id_for transaction (db st1) = holder_id_for transaction (db st)).
  { unfold holder_id_for. rewrite Htoken. reflexivity. }
  assert (Hp : position_for transaction (db st1) = position_for transaction (db st)).
  { unfold position_for. rewrite Htoken. reflexivity. }
  assert (Hw : with_holder transaction (db st1) = with_holder transaction (db st)).
  { unfold with_holder. rewrite Htoken. reflexivity. }
  rewrite Hh, Hp in Heffect. rewrite Hh, Hp, Hw in Hrun.
  exists average, pnl, cb', w. split; [|exact Heffect].
  unfold processTransaction.
  unfold bind at 1, get_db at 1. unfold try_catch.
  unfold bind at 1 2, get_db, query.
  change (reliable (SelectTransaction (signature transaction))) with false.
  cbv iota beta. rewrite Hnew.
  unfold bind at 1. rewrite ensureTokenExists_reliable.
  unfold bind at 1. unfold insert_transaction.
  unfold bind at 1 2 3, get_db, query, modify_db, ret.
  change (reliable (InsertTransaction (signature transaction))) with false.
  cbv iota beta.
  unfold bind at 1.
  replace (set_db _ (set_db (with_token (tokenAddress transaction) (db st)) st)) with st1.
  - replace (transactions (db (set_db (with_token (tokenAddress transaction) (db st)) st)))
      with (transactions (db st))
      by (unfold with_token; destruct (find _ (tokens (db st))); reflexivity).
    rewrite Hrun. change (reliable (CommitTransaction (signature transaction))) with false. reflexivity.
  - unfold st1, transaction_row, with_token, token_id_for.
    destruct (find _ (tokens (db st))); reflexivity.
Qed.

Lemma signature_exists_app sig d row :
  tx_signature row = sig ->
  existsb (fun t => String.eqb (tx_signature t) sig) (transactions d ++ [row]) = true.
Proof.
  intros <-. rewrite existsb_app. simpl. rewrite String.eqb_refl.
  rewrite orb_true_r. reflexivity.
Qed.

Lemma processTransaction_reliable_ok transaction st :
  fst (processTransaction reliable transaction st) = Ok tt
  /\ signature_exists (signature transaction) (db (snd (processTransaction reliable transaction st)))
     = true.
Proof.
  destruct (signature_exists (signature transaction) (db st)) eqn:E.
  - rewrite processTransaction_duplicate by (reflexivity || assumption).
    split; [reflexivity | assumption].
  - destruct (processTransaction_reliable_new transaction st E)
      as (average & pnl & cb' & w & Hrun & _).
    rewrite Hrun. split; [reflexivity|].
    unfold signature_exists. cbn [snd db transactions].
    apply signature_exists_app. reflexivity.
Qed.

(** ** C4: idempotence *)



(** ** C5: selling more than the lots hold *)





Lemma filter_none (A : Type) (f : A -> bool) (l : list A) :
  (forall x, In x l -> f x = false) -> filter f l = [].
Proof.
  induction l as [|x l IH]; simpl; intros H; [reflexivity|].
  rewrite (H x (or_introl eq_refl)). apply IH. intros y Hy. apply H. right. assumption.
Qed.





(** ** C6: conservation *)

Lemma fresh_id_fresh (l : list nat) : ~ In (fresh_id l) l.
Proof.
  unfold fresh_id. intros H.
  pose proof (proj1 (list_max_le l (list_max l)) (Nat.le_refl _)) as Hall.
  rewrite Forall_forall in Hall. specialize (Hall _ H). lia.
Qed.











Lemma open_lots_none holderId d :
  ~ In holderId (map cb_holder_id (cost_basis d)) -> available holderId d = 0.
Proof.
  intros H. unfold available, open_lots. rewrite filter_none; [reflexivity|].
  intros r Hr. unfold is_open_lot_of.
  destruct (Nat.eqb_spec (cb_holder_id r) holderId) as [E|E]; [|reflexivity].
  exfalso. apply H. rewrite <- E. apply in_map. assumption.
Qed.





(** ** C10: no balance check on the way out *)




(** ** C7: no division by zero *)

Lemma sum_remaining_available holderId d :
  or_zero_Z (sum_remaining holderId d) = available holderId d.
Proof.
  unfold sum_remaining, available, sql_sum_Z, sum_Z.
  destruct (map cb_remaining_amount (open_lots holderId d)); reflexivity.
Qed.

Lemma js_div_defined (a : Q) (z : Z) : z <> 0 -> js_div a (inject_Z z) = Some (a / inject_Z z)%Q.
Proof.
  intros H. unfold js_div.
  destruct (Qeq_bool (inject_Z z) 0) eqn:E; [|reflexivity].
  apply Qeq_bool_eq in E. unfold Qeq in E. simpl in E. lia.
Qed.

(** C7.  On a store that does not fail, for a holder whose open lots hold
    nothing, [getWeightedAverageCostBasis] returns 0 and [getUnrealizedPnL]
    returns the record of zeros, both without throwing; and for every
    holder the average either function returns is a number (the divisor of
    the one division is never zero). *)
Theorem zero_open_amount_gives_zero :
  (forall st holderId currentPrice,
      available holderId (db st) = 0 ->
      getWeightedAverageCostBasis reliable holderId st = (Ok (Some 0%Q), st)
      /\ getUnrealizedPnL reliable holderId currentPrice st
         = (Ok (mkUnrealizedPnL 0%Q 0 (Some 0%Q)), st))
  /\ (forall st holderId currentPrice,
        exists q u a,
          getWeightedAverageCostBasis reliable holderId st = (Ok (Some q), st)
          /\ getUnrealizedPnL reliable holderId currentPrice st
             = (Ok (mkUnrealizedPnL u (available holderId (db st)) (Some a)), st)).
Proof.
  split.
  - intros st holderId currentPrice Hzero.
    unfold getWeightedAverageCostBasis, getUnrealizedPnL, bind, try_catch, get_db, query.
    change (reliable (SelectCostTotals holderId)) with false. cbv iota beta.
    rewrite sum_remaining_available, Hzero. split; reflexivity.
  - intros st holderId currentPrice.
    unfold getWeightedAverageCostBasis, getUnrealizedPnL, bind, try_catch, get_db, query.
    change (reliable (SelectCostTotals holderId)) with false. cbv iota beta.
    rewrite sum_remaining_available.
    destruct (Z.eqb_spec (available holderId (db st)) 0) as [E|E].
    + rewrite E. do 3 eexists. split; reflexivity.
    + rewrite js_div_defined by assumption. do 3 eexists. split; reflexivity.
Qed.

Lemma zero_open_amount_gives_zero_witness :
  map cb_remaining_amount (cost_basis (db sold_out)) = [0]
  /\ available 1 (db sold_out) = 0
  /\ getWeightedAverageCostBasis reliable 1 sold_out = (Ok (Some 0%Q), sold_out)
  /\ getUnrealizedPnL reliable 1 5 sold_out
     = (Ok (mkUnrealizedPnL 0%Q 0 (Some 0%Q)), sold_out).
Proof.
  assert (H : available 1 (db sold_out) = 0) by reflexivity.
  exact (conj eq_refl (conj H (proj1 zero_open_amount_gives_zero sold_out 1%nat 5%Q H))).
Defined.

(** ** C8: profit and loss zones *)



Lemma zones_step_zone currentPrice z row :
  zones_step currentPrice z row
  = let value := (inject_Z (zr_current_balance row) * currentPrice)%Q in
    match zone_of currentPrice (zr_average_cost_basis row) with
    | Profit => mkProfitLossZones (S (profitHolders z)) (lossHolders z) (breakEvenHolders z)
                  (totalHolders z) (profitAmountUSD z + value)%Q (lossAmountUSD z)
                  (breakEvenAmountUSD z)
    | Loss => mkProfitLossZones (profitHolders z) (S (lossHolders z)) (breakEvenHolders z)
                (totalHolders z) (profitAmountUSD z) (lossAmountUSD z + value)%Q
                (breakEvenAmountUSD z)
    | BreakEven => mkProfitLossZones (profitHolders z) (lossHolders z) (S (breakEvenHolders z))
                     (totalHolders z) (profitAmountUSD z) (lossAmountUSD z)
                     (breakEvenAmountUSD z + value)%Q
    end.
Proof.
  unfold zones_step, zone_of, percentage_change.
  destruct (Qeq_bool (zr_average_cost_basis row) 0); [reflexivity|].
  destruct (Qlt_bool breakEvenTolerance _); [reflexivity|].
  destruct (Qlt_bool _ (- breakEvenTolerance)); reflexivity.
Qed.

Lemma zones_fold currentPrice rows : forall z,
  let r := fold_left (zones_step currentPrice) rows z in
  (profitHolders r = profitHolders z + List.length (rows_in_zone Profit currentPrice rows))%nat
  /\ (lossHolders r = lossHolders z + List.length (rows_in_zone Loss currentPrice rows))%nat
  /\ (breakEvenHolders r
      = breakEvenHolders z + List.length (rows_in_zone BreakEven currentPrice rows))%nat
  /\ totalHolders r = totalHolders z
  /\ (profitAmountUSD r == profitAmountUSD z + value_in_zone Profit currentPrice rows)%Q
  /\ (lossAmountUSD r == lossAmountUSD z + value_in_zone Loss currentPrice rows)%Q
  /\ (breakEvenAmountUSD r
      == breakEvenAmountUSD z + value_in_zone BreakEven currentPrice rows)%Q.
Proof.
  unfold value_in_zone, rows_in_zone.
  induction rows as [|row rows IH]; intros z; cbn [fold_left].
  - simpl. repeat split; try lia; ring.
  - specialize (IH (zones_step currentPrice z row)). cbv zeta in IH.
    destruct IH as (H1 & H2 & H3 & H4 & H5 & H6 & H7). cbv zeta.
    rewrite H1, H2, H3, H4, H5, H6, H7. clear H1 H2 H3 H4 H5 H6 H7.
    rewrite zones_step_zone. cbn [filter].
    destruct (zone_of currentPrice (zr_average_cost_basis row)); simpl;
      repeat split; try lia; ring.
Qed.



(** ** C2: what a rollback undoes *)




(** ** C3: a failure in the queue *)

Lemma processAll_cons fails transaction rest st :
  processAll fails (transaction :: rest) st
  = match processTransaction fails transaction st with
    | (Ok _, st') => processAll fails rest st'
    | (Throw e, st') => (Throw e, st')
    end.
Proof. reflexivity. Qed.

Lemma drain_all_ok fails l : forall p s',
  processingQueue p = l ->
  processAll fails l (store p) = (Ok tt, s') ->
  drain fails l p = (Ok tt, mkProcessor s' [] (isProcessing p)).
Proof.
  induction l as [|transaction rest IH]; intros p s' Hq Hrun.
  - injection Hrun as <-. simpl. destruct p; simpl in *. subst. reflexivity.
  - rewrite processAll_cons in Hrun. cbn [drain].
    destruct (processTransaction fails transaction (store p)) as [[[]|e] s1];
      [|discriminate].
    rewrite (IH (mkProcessor s1 rest (isProcessing p)) s' eq_refl Hrun). reflexivity.
Qed.

Lemma drain_failure fails before : forall p failed after e s1 s2,
  processAll fails before (store p) = (Ok tt, s1) ->
  processTransaction fails failed s1 = (Throw e, s2) ->
  drain fails (before ++ failed :: after) p
  = (Throw e, mkProcessor s2 after (isProcessing p)).
Proof.
  induction before as [|transaction rest IH]; intros p failed after e s1 s2 Hrun Hfail.
  - injection Hrun as <-. cbn [app drain]. rewrite Hfail. reflexivity.
  - rewrite processAll_cons in Hrun. cbn [app drain].
    destruct (processTransaction fails transaction (store p)) as [[[]|e'] s0];
      [|discriminate].
    rewrite (IH (mkProcessor s0 (rest ++ failed :: after) (isProcessing p))
               failed after e s1 s2 Hrun Hfail).
    reflexivity.
Qed.

(** C3 as stated fails on the code: with ["t1"] and ["t2"] queued and the
    store failing on the insert of ["t1"], [processQueue] returns with
    ["t2"] still in the queue and not applied, although ["t2"] applies
    without error on that store. *)
Lemma item_behind_a_failure_is_not_drained :
  let p := mkProcessor initial_store [t1; t2] false in
  let p' := snd (processQueue insert_of_t1_fails p) in
  (exists e s, processTransaction insert_of_t1_fails t1 (store p) = (Throw e, s))
  /\ fst (processTransaction insert_of_t1_fails t2 (store p)) = Ok tt
  /\ processingQueue p' = [t2]
  /\ signature_exists (signature t2) (db (store p')) = false
  /\ db (store p') = empty_database.
Proof.
  vm_compute. repeat split; try reflexivity. do 2 eexists. reflexivity.
Qed.

(** C3, amended.  When applying an item of the queue throws, the [try]
    around the whole loop of [processQueue] catches it: the drain ends
    there, [processQueue] returns normally with the error logged on top of
    what the failed application left, [isProcessing] is back to [false], the
    failed item is gone and the items behind it are still queued in arrival
    order.  The next arrival starts a drain that applies them, in that
    order, before the new item. *)
Theorem failure_ends_the_drain :
  forall fails p before failed after e s1 s2,
    isProcessing p = false ->
    processingQueue p = before ++ failed :: after ->
    processAll fails before (store p) = (Ok tt, s1) ->
    processTransaction fails failed s1 = (Throw e, s2) ->
    let p' := mkProcessor
                (mkStore (db s2)
                   (log s2 ++ [LogError "Error processing transaction queue:" e]))
                after false in
    processQueue fails p = (Ok tt, p')
    /\ forall next s3,
         processAll fails (after ++ [next]) (store p') = (Ok tt, s3) ->
         handleTransaction fails next p' = (Ok tt, mkProcessor s3 [] false).
Proof.
  intros fails p before failed after e s1 s2 Hidle Hqueue Hbefore Hfail p'.
  split.
  - unfold processQueue. rewrite Hidle, Hqueue. cbn [orb].
    replace (List.length (before ++ failed :: after) =? 0)%nat with false
      by (symmetry; apply Nat.eqb_neq; rewrite length_app; simpl; lia).
    cbv zeta. cbn [processingQueue].
    rewrite (drain_failure fails before
               (mkProcessor (store p) (before ++ failed :: after) true)
               failed after e s1 s2 Hbefore Hfail).
    reflexivity.
  - intros next s3 Hnext.
    unfold handleTransaction, processQueue. cbn [processingQueue isProcessing store p' orb].
    replace (List.length (after ++ [next]) =? 0)%nat with false
      by (symmetry; apply Nat.eqb_neq; rewrite length_app; simpl; lia).
    rewrite (drain_all_ok fails (after ++ [next])
               (mkProcessor
                  (mkStore (db s2)
                     (log s2 ++ [LogError "Error processing transaction queue:" e]))
                  (after ++ [next]) true)
               s3 eq_refl Hnext).
    reflexivity.
Qed.

Lemma failure_ends_the_drain_witness :
  let p := mkProcessor initial_store [t1; t2] false in
  exists e s2 p',
    isProcessing p = false
    /\ processingQueue p = [] ++ t1 :: [t2]
    /\ processAll insert_of_t1_fails [] (store p) = (Ok tt, initial_store)
    /\ processTransaction insert_of_t1_fails t1 initial_store = (Throw e, s2)
    /\ processQueue insert_of_t1_fails p = (Ok tt, p')
    /\ processingQueue p' = [t2]
    /\ map tx_signature
         (transactions (db (store (snd (handleTransaction insert_of_t1_fails t3 p')))))
       = ["t2"; "t3"]%string.
Proof.
  intros p.
  set (e := StoreError (InsertTransaction "t1")).
  set (s2 := mkStore empty_database [LogError "Error processing transaction t1" e]).
  assert (H1 : isProcessing p = false) by reflexivity.
  assert (H2 : processingQueue p = [] ++ t1 :: [t2]) by reflexivity.
  assert (H3 : processAll insert_of_t1_fails [] (store p) = (Ok tt, initial_store))
    by reflexivity.
  assert (H4 : processTransaction insert_of_t1_fails t1 initial_store = (Throw e, s2))
    by reflexivity.
  destruct (failure_ends_the_drain insert_of_t1_fails p [] t1 [t2] e initial_store s2
              H1 H2 H3 H4) as [Hdrain Hnext].
  exists e, s2. eexists.
  split; [exact H1|]. split; [exact H2|]. split; [exact H3|]. split; [exact H4|].
  split; [exact Hdrain|]. split; [reflexivity|].
  rewrite (Hnext t3 (snd (processAll insert_of_t1_fails ([t2] ++ [t3])
                            (mkStore (db s2)
                               (log s2 ++ [LogError "Error processing transaction queue:" e]))))
             eq_refl).
  reflexivity.
Defined.

(** ** C9: price levels *)

Lemma insert_level_perm x l : Permutation (insert_level x l) (x :: l).
Proof.
  induction l as [|y l IH]; simpl.
  - apply Permutation_refl.
  - destruct (pl_totalAmount y <=? pl_totalAmount x).
    + apply Permutation_refl.
    + eapply perm_trans; [apply perm_skip, IH | apply perm_swap].
Qed.

Lemma insert_level_sorted x l :
  StronglySorted larger_first l -> StronglySorted larger_first (insert_level x l).
Proof.
  induction 1 as [|y l Hl IH Hy]; simpl.
  - repeat constructor.
  - destruct (Z.leb_spec (pl_totalAmount y) (pl_totalAmount x)) as [E|E].
    + constructor; [constructor; assumption|].
      constructor; [exact E|].
      eapply Forall_impl; [|exact Hy].
      unfold larger_first. intros z Hz. lia.
    + constructor; [assumption|].
      eapply Permutation_Forall; [apply Permutation_sym, insert_level_perm|].
      constructor; [unfold larger_first; lia | assumption].
Qed.

Lemma sort_by_amount_desc_sorted l : StronglySorted larger_first (sort_by_amount_desc l).
Proof.
  unfold sort_by_amount_desc.
  induction l; simpl; [constructor | apply insert_level_sorted; assumption].
Qed.

(** C9 fails on the code in its holder count.  [getHolderPriceLevels] does
    return the levels by total amount, largest first.  But a bucket's
    [holderCount] is the sum of the per-price [COUNT(DISTINCT holder_id)] of
    the prices merged into it: the one holder with a lot at $100 and a lot
    at $101, both in the bucket of $100 at 5%, is counted twice. *)
Theorem bucket_counts_a_holder_once_per_price :
  (forall st tokenId priceRangePercent,
      exists levels,
        getHolderPriceLevels reliable tokenId priceRangePercent st = (Ok levels, st)
        /\ StronglySorted larger_first levels)
  /\ (exists level,
        getHolderPriceLevels reliable 1 5 one_holder_two_prices
        = (Ok [level], one_holder_two_prices)
        /\ (priceLevel level == 100)%Q
        /\ pl_totalAmount level = 200
        /\ map cb_holder_id (token_lots 1 (db one_holder_two_prices)) = [1; 1]%nat
        /\ distinct_holders (token_lots 1 (db one_holder_two_prices)) = 1%nat
        /\ holderCount level = 2%nat).
Proof.
  split.
  - intros st tokenId priceRangePercent.
    unfold getHolderPriceLevels, bind, try_catch, get_db, query.
    change (reliable (SelectSupply tokenId)) with false.
    change (reliable (SelectPriceDistribution tokenId)) with false.
    cbv iota beta. eexists. split; [reflexivity|].
    unfold price_levels. apply sort_by_amount_desc_sorted.
  - eexists. vm_compute. repeat split; reflexivity.
Qed.

(** * Further properties *)

(** ** Failures only show as exceptions *)

Lemma succeeds_alike_refl (A : Type) (m : M A) : succeeds_alike m m.
Proof. intros st a st' H. exact H. Qed.

Lemma succeeds_alike_bind (A B : Type) (m m' : M A) (k k' : A -> M B) :
  succeeds_alike m m' -> (forall a, succeeds_alike (k a) (k' a)) ->
  succeeds_alike (bind m k) (bind m' k').
Proof.
  intros Hm Hk st b st' H. unfold bind in *.
  destruct (m st) as [[a|e] s1] eqn:E; [|discriminate].
  rewrite (Hm st a s1 E). exact (Hk a s1 b st' H).
Qed.

Lemma succeeds_alike_try (A : Type) (m m' : M A) (h h' : Error -> M A) :
  succeeds_alike m m' ->
  (forall e st, exists e' st', h e st = (Throw e', st')) ->
  succeeds_alike (try_catch m h) (try_catch m' h').
Proof.
  intros Hm Hh st a st' H. unfold try_catch in *.
  destruct (m st) as [[a0|e] s1] eqn:E.
  - rewrite (Hm st a0 s1 E). exact H.
  - destruct (Hh e s1) as (e' & s2 & Hthrow). rewrite Hthrow in H. discriminate.
Qed.

Lemma succeeds_alike_query fails s : succeeds_alike (query fails s) (query reliable s).
Proof.
  intros st a st'. unfold query. change (reliable s) with false.
  destruct (fails s); [discriminate | tauto].
Qed.

(** Closes a goal [succeeds_alike m m'] where [m'] is [m] on the store that
    does not fail. *)
Ltac alike :=
  repeat first
    [ apply succeeds_alike_query
    | apply succeeds_alike_bind; [|intros ?]
    | apply succeeds_alike_try; [|intros ? ?; do 2 eexists; reflexivity]
    | apply succeeds_alike_refl ].

Lemma addPurchase_alike fails holderId transactionId amount price time :
  succeeds_alike (addPurchase fails holderId transactionId amount price time)
                 (addPurchase reliable holderId transactionId amount price time).
Proof. unfold addPurchase. alike. Qed.

Lemma getTotalCostBasis_alike fails holderId :
  succeeds_alike (getTotalCostBasis fails holderId) (getTotalCostBasis reliable holderId).
Proof. unfold getTotalCostBasis. alike. Qed.

Lemma sale_loop_alike fails entries : forall salePrice pnl outstanding,
  succeeds_alike (sale_loop fails entries salePrice pnl outstanding)
                 (sale_loop reliable entries salePrice pnl outstanding).
Proof.
  induction entries as [|entry rest IH]; intros salePrice pnl outstanding; cbn [sale_loop].
  - apply succeeds_alike_refl.
  - destruct (outstanding <=? 0); [apply succeeds_alike_refl|].
    cbv zeta. alike. apply IH.
Qed.

Lemma processSale_alike fails holderId saleAmount salePrice :
  succeeds_alike (processSale fails holderId saleAmount salePrice)
                 (processSale reliable holderId saleAmount salePrice).
Proof.
  unfold processSale.
  apply succeeds_alike_bind; [apply succeeds_alike_refl|]. intros begin.
  apply succeeds_alike_try; [|intros ? ?; do 2 eexists; reflexivity].
  apply succeeds_alike_bind; [apply succeeds_alike_query|]. intros _.
  apply succeeds_alike_bind; [apply succeeds_alike_refl|]. intros d.
  destruct (fifo_lots holderId d); [apply succeeds_alike_refl|].
  apply succeeds_alike_bind; [apply sale_loop_alike|]. intros [pnl out].
  alike.
Qed.

Lemma updatePositionForTransaction_alike fails holderId position transaction transactionId :
  succeeds_alike
    (updatePositionForTransaction fails holderId position transaction transactionId)
    (updatePositionForTransaction reliable holderId position transaction transactionId).
Proof.
  unfold updatePositionForTransaction. cbv zeta.
  apply succeeds_alike_bind.
  - destruct (transactionType transaction).
    + apply succeeds_alike_bind; [apply addPurchase_alike|]. intros _.
      apply succeeds_alike_refl.
    + apply succeeds_alike_bind; [apply processSale_alike|]. intros ?.
      apply succeeds_alike_refl.
    + apply succeeds_alike_refl.
  - intros [[[b tb] ts] pnl].
    apply succeeds_alike_bind.
    + destruct (0 <? tb); [|apply succeeds_alike_refl].
      apply succeeds_alike_bind; [apply getTotalCostBasis_alike|]. intros ?.
      apply succeeds_alike_refl.
    + intros average. alike.
Qed.

Lemma updateHolderPosition_alike fails tokenId wallet transaction transactionId :
  succeeds_alike (updateHolderPosition fails tokenId wallet transaction transactionId)
                 (updateHolderPosition reliable tokenId wallet transaction transactionId).
Proof.
  unfold updateHolderPosition.
  apply succeeds_alike_bind; [apply succeeds_alike_query|]. intros _.
  apply succeeds_alike_bind; [apply succeeds_alike_refl|]. intros d.
  destruct (find_holder tokenId wallet d).
  - apply updatePositionForTransaction_alike.
  - apply succeeds_alike_bind; [apply succeeds_alike_query|]. intros _.
    apply succeeds_alike_bind; [apply succeeds_alike_refl|]. intros _.
    apply updatePositionForTransaction_alike.
Qed.

Lemma ensureTokenExists_alike fails tokenAddress :
  succeeds_alike (ensureTokenExists fails tokenAddress)
                 (ensureTokenExists reliable tokenAddress).
Proof.
  unfold ensureTokenExists.
  apply succeeds_alike_bind; [apply succeeds_alike_query|]. intros _.
  apply succeeds_alike_bind; [apply succeeds_alike_refl|]. intros d.
  destruct (find _ (tokens d)); alike.
Qed.

Lemma processTransaction_alike fails transaction :
  succeeds_alike (processTransaction fails transaction)
                 (processTransaction reliable transaction).
Proof.
  unfold processTransaction.
  apply succeeds_alike_bind; [apply succeeds_alike_refl|]. intros begin.
  apply succeeds_alike_try; [|intros ? ?; do 2 eexists; reflexivity].
  apply succeeds_alike_bind; [apply succeeds_alike_query|]. intros _.
  apply succeeds_alike_bind; [apply succeeds_alike_refl|]. intros d.
  destruct (signature_exists (signature transaction) d); [apply succeeds_alike_refl|].
  apply succeeds_alike_bind; [apply ensureTokenExists_alike|]. intros tokenId.
  apply succeeds_alike_bind; [unfold insert_transaction; alike|]. intros transactionId.
  apply succeeds_alike_bind; [apply updateHolderPosition_alike|]. intros _.
  apply succeeds_alike_query.
Qed.

Lemma processAll_alike fails l : succeeds_alike (processAll fails l) (processAll reliable l).
Proof.
  induction l as [|transaction rest IH]; cbn [processAll].
  - apply succeeds_alike_refl.
  - apply succeeds_alike_bind; [apply processTransaction_alike | intros _; exact IH].
Qed.

Lemma signature_stays sig transaction st :
  signature_exists sig (db st) = true ->
  signature_exists sig (db (snd (processTransaction reliable transaction st))) = true.
Proof.
  intros H.
  destruct (signature_exists (signature transaction) (db st)) eqn:E.
  - rewrite processTransaction_duplicate by (reflexivity || assumption). exact H.
  - destruct (processTransaction_reliable_new transaction st E)
      as (average & pnl & cb' & w & Hrun & _).
    rewrite Hrun. unfold signature_exists in *. cbn [snd db transactions].
    rewrite existsb_app, H. reflexivity.
Qed.

Lemma processAll_reliable_signatures l : forall st sig,
  signature_exists sig (db st) = true \/ In sig (map signature l) ->
  fst (processAll reliable l st) = Ok tt
  /\ signature_exists sig (db (snd (processAll reliable l st))) = true.
Proof.
  induction l as [|transaction rest IH]; intros st sig H.
  - destruct H as [H|[]]. split; [reflexivity | exact H].
  - rewrite processAll_cons.
    destruct (processTransaction_reliable_ok transaction st) as [Hok Hsig].
    pose proof (signature_stays sig transaction st) as Hstay.
    destruct (processTransaction reliable transaction st) as [[[]|e] s1];
      cbn [fst snd] in *; [|discriminate].
    apply IH. destruct H as [H|[<-|H]]; [left; auto | left; exact Hsig | right; exact H].
Qed.



(** ** A failed sale *)

Lemma keeps_ret (A : Type) (a : A) : keeps_client_tables (ret a).
Proof. intros st. auto. Qed.

Lemma keeps_throw (A : Type) (e : Error) : keeps_client_tables (@throw A e).
Proof. intros st. auto. Qed.

Lemma keeps_get_db : keeps_client_tables get_db.
Proof. intros st. auto. Qed.

Lemma keeps_query fails s : keeps_client_tables (query fails s).
Proof. intros st. unfold query. destruct (fails s); auto. Qed.

Lemma keeps_logger l : keeps_client_tables (logger l).
Proof. intros st. auto. Qed.

Lemma keeps_lots_update (f : Database -> list CostBasisRow) :
  keeps_client_tables (modify_db (fun d => set_cost_basis (f d) d)).
Proof. intros st. auto. Qed.

Lemma keeps_bind (A B : Type) (m : M A) (k : A -> M B) :
  keeps_client_tables m -> (forall a, keeps_client_tables (k a)) ->
  keeps_client_tables (bind m k).
Proof.
  intros Hm Hk st. unfold bind. specialize (Hm st).
  destruct (m st) as [[a|e] s1]; cbn [snd] in *; [|exact Hm].
  destruct (Hk a s1) as (H1 & H2 & H3). destruct Hm as (H4 & H5 & H6).
  repeat split; congruence.
Qed.

Lemma keeps_try (A : Type) (m : M A) (h : Error -> M A) :
  keeps_client_tables m -> (forall e, keeps_client_tables (h e)) ->
  keeps_client_tables (try_catch m h).
Proof.
  intros Hm Hh st. unfold try_catch. specialize (Hm st).
  destruct (m st) as [[a|e] s1]; cbn [snd] in *; [exact Hm|].
  destruct (Hh e s1) as (H1 & H2 & H3). destruct Hm as (H4 & H5 & H6).
  repeat split; congruence.
Qed.

Lemma keeps_sale_loop fails entries : forall salePrice pnl outstanding,
  keeps_client_tables (sale_loop fails entries salePrice pnl outstanding).
Proof.
  induction entries as [|entry rest IH]; intros salePrice pnl outstanding; cbn [sale_loop].
  - apply keeps_ret.
  - destruct (outstanding <=? 0); [apply keeps_ret|]. cbv zeta.
    apply keeps_bind; [apply keeps_query|]. intros _.
    apply keeps_bind; [|intros _; apply IH].
    unfold update_remaining. apply keeps_lots_update.
Qed.

(** The statements [processSale] runs between its [BEGIN] and its [COMMIT]. *)
Lemma keeps_sale_body fails holderId saleAmount salePrice begin :
  keeps_client_tables
    (query fails (SelectCostBasis holderId) ;;;
     d <- get_db ;;
     match fifo_lots holderId d with
     | [] =>
         logger (LogWarn (NoCostBasisEntries holderId)) ;;;
         calculator_rollback begin ;;;
         ret 0%Q
     | _ :: _ =>
         r <- sale_loop fails (fifo_lots holderId d) salePrice 0%Q saleAmount ;;
         let (totalRealizedPnl, remainingSaleAmount) := r in
         (if 0 <? remainingSaleAmount
          then logger (LogWarn (SaleExceedsCostBasis saleAmount remainingSaleAmount))
          else ret tt) ;;;
         query fails (CommitSale holderId) ;;;
         ret totalRealizedPnl
     end).
Proof.
  apply keeps_bind; [apply keeps_query|]. intros _.
  apply keeps_bind; [apply keeps_get_db|]. intros d.
  destruct (fifo_lots holderId d).
  - apply keeps_bind; [apply keeps_logger|]. intros _.
    apply keeps_bind; [|intros _; apply keeps_ret].
    unfold calculator_rollback. apply (keeps_lots_update (fun _ => cost_basis begin)).
  - apply keeps_bind; [apply keeps_sale_loop|]. intros [pnl out].
    apply keeps_bind; [destruct (0 <? out); [apply keeps_logger | apply keeps_ret]|].
    intros _. apply keeps_bind; [apply keeps_query | intros _; apply keeps_ret].
Qed.

Lemma processSale_throw fails holderId saleAmount salePrice st e st' :
  processSale fails holderId saleAmount salePrice st = (Throw e, st') ->
  db st' = db st
  /\ exists before, log st' = before ++ [LogError "Error processing FIFO sale:" e].
Proof.
  unfold processSale. unfold bind at 1, get_db at 1, try_catch.
  pose proof (keeps_sale_body fails holderId saleAmount salePrice (db st) st) as Hkeeps.
  match goal with |- context [match ?body st with _ => _ end] =>
    destruct (body st) as [[a|e0] s1] end.
  - discriminate.
  - cbn [snd] in Hkeeps. destruct Hkeeps as (H1 & H2 & H3).
    unfold bind, calculator_rollback, modify_db, logger, throw. cbn [db log set_db].
    intros H. injection H as <- <-. cbn [db log]. split.
    + unfold set_cost_basis. rewrite H1, H2, H3. destruct (db st); reflexivity.
    + exists (log s1). reflexivity.
Qed.

(** Whatever statements the store fails on: when [processSale] throws, no
    row of the store has changed (the lots written so far are rolled back)
    and the error is the last line of the log; when it returns, the store
    holds the same rows up to the remaining amounts of lots. *)
Theorem failed_sale_changes_no_lot :
  forall fails holderId saleAmount salePrice st,
    (forall e st',
        processSale fails holderId saleAmount salePrice st = (Throw e, st') ->
        db st' = db st
        /\ exists before, log st' = before ++ [LogError "Error processing FIFO sale:" e])
    /\ (forall pnl st',
          processSale fails holderId saleAmount salePrice st = (Ok pnl, st') ->
          tokens (db st') = tokens (db st)
          /\ transactions (db st') = transactions (db st)
          /\ holders (db st') = holders (db st)
          /\ same_lots (cost_basis (db st)) (cost_basis (db st'))).
Proof.
  intros fails holderId saleAmount salePrice st. split.
  - intros e st'. apply processSale_throw.
  - intros pnl st' H.
    pose proof (processSale_alike fails holderId saleAmount salePrice st pnl st' H) as Hr.
    destruct (processSale_uniform holderId saleAmount salePrice (cost_basis (db st)))
      as (pnl0 & cb' & w & Hsame & _ & Hrun).
    rewrite (Hrun st eq_refl) in Hr. injection Hr as _ <-. cbn [db tokens transactions holders
      cost_basis set_cost_basis]. auto.
Qed.

Lemma failed_sale_changes_no_lot_witness :
  exists e st',
    processSale second_lot_update_fails 1 150 3 lot_A_and_lot_B = (Throw e, st')
    /\ db st' = db lot_A_and_lot_B.
Proof.
  destruct (processSale second_lot_update_fails 1 150 3 lot_A_and_lot_B)
    as [[pnl|e] st'] eqn:H; [vm_compute in H; discriminate|].
  exists e, st'. split; [reflexivity|].
  exact (proj1 (proj1 (failed_sale_changes_no_lot second_lot_update_fails 1%nat 150 3%Q
                         lot_A_and_lot_B) e st' H)).
Defined.

(** ** The metrics of a holder *)












(** ** Deleting the lots that hold nothing *)

Lemma deleted_is_not_open ho h r :
  is_deleted_by_cleanup ho r = true -> is_open_lot_of h r = false.
Proof.
  unfold is_deleted_by_cleanup, is_open_lot_of. intros H.
  apply andb_true_iff in H. destruct H as [H _]. apply Z.eqb_eq in H.
  rewrite H. apply andb_false_r.
Qed.

Lemma open_lots_cleanup h ho d : open_lots h (delete_zero_lots ho d) = open_lots h d.
Proof.
  unfold open_lots, delete_zero_lots. cbn [cost_basis set_cost_basis].
  induction (cost_basis d) as [|r cb IH]; [reflexivity|].
  cbn [filter]. destruct (is_deleted_by_cleanup ho r) eqn:E; cbn [negb filter].
  - rewrite (deleted_is_not_open ho h r E). exact IH.
  - rewrite IH. reflexivity.
Qed.

Lemma lots_total_cleanup h ho d :
  lots_total h (cost_basis (delete_zero_lots ho d)) = lots_total h (cost_basis d).
Proof.
  unfold lots_total, delete_zero_lots, sum_Z. cbn [cost_basis set_cost_basis].
  induction (cost_basis d) as [|r cb IH]; [reflexivity|].
  cbn [filter]. destruct (is_deleted_by_cleanup ho r) eqn:E; cbn [negb filter].
  - rewrite IH. unfold is_deleted_by_cleanup in E.
    apply andb_true_iff in E. destruct E as [E _]. apply Z.eqb_eq in E.
    destruct (cb_holder_id r =? h)%nat; [|reflexivity].
    cbn [map fold_right]. lia.
  - destruct (cb_holder_id r =? h)%nat; cbn [map fold_right]; rewrite IH; reflexivity.
Qed.

Lemma delete_zero_lots_twice ho d :
  delete_zero_lots ho (delete_zero_lots ho d) = delete_zero_lots ho d.
Proof.
  unfold delete_zero_lots, set_cost_basis. cbn [cost_basis tokens transactions holders].
  apply f_equal.
  induction (cost_basis d) as [|r cb IH]; [reflexivity|].
  cbn [filter]. destruct (is_deleted_by_cleanup ho r) eqn:E; cbn [negb filter].
  - exact IH.
  - rewrite E. cbn [negb]. rewrite IH. reflexivity.
Qed.

Lemma cleanupCostBasis_reliable ho st :
  cleanupCostBasis more_reliable ho st = (Ok tt, set_db (delete_zero_lots ho (db st)) st).
Proof. reflexivity. Qed.

(** On a store that does not fail [cleanupCostBasis] returns normally and
    deletes exactly the lots with nothing remaining (of the given holder, or
    of every holder); it writes nothing else and nothing to the log.  No
    holder's open lots, in the order sales take them, change, nor the amount
    remaining over all lots of a holder, the breakdown or the unrealized
    profit at any price; a second cleanup changes nothing. *)
Theorem cleanup_keeps_what_is_held :
  forall st ho,
    exists st',
      cleanupCostBasis more_reliable ho st = (Ok tt, st')
      /\ log st' = log st
      /\ (tokens (db st'), transactions (db st'), holders (db st'))
         = (tokens (db st), transactions (db st), holders (db st))
      /\ (forall r, In r (cost_basis (db st'))
                    <-> In r (cost_basis (db st))
                        /\ ~ (cb_remaining_amount r = 0
                              /\ match ho with
                                 | Some h => cb_holder_id r = h
                                 | None => True
                                 end))
      /\ (forall h, fifo_lots h (db st') = fifo_lots h (db st))
      /\ (forall h, lots_total h (cost_basis (db st')) = lots_total h (cost_basis (db st)))
      /\ (forall h, fst (getCostBasisBreakdown more_reliable h st')
                    = fst (getCostBasisBreakdown more_reliable h st))
      /\ (forall h p, fst (getUnrealizedPnL reliable h p st')
                      = fst (getUnrealizedPnL reliable h p st))
      /\ cleanupCostBasis more_reliable ho st' = (Ok tt, st').
Proof.
  intros st ho. eexists. split; [apply cleanupCostBasis_reliable|].
  cbn [db log set_db].
  assert (Hfifo : forall h, fifo_lots h (delete_zero_lots ho (db st)) = fifo_lots h (db st)).
  { intros h. unfold fifo_lots. rewrite open_lots_cleanup. reflexivity. }
  split; [reflexivity|]. split; [reflexivity|]. split; [|split; [exact Hfifo|split]].
  - intros r. unfold delete_zero_lots. cbn [cost_basis set_cost_basis].
    rewrite filter_In. unfold is_deleted_by_cleanup.
    rewrite negb_true_iff, andb_false_iff, Z.eqb_neq.
    destruct ho as [h|].
    + rewrite Nat.eqb_neq. intuition lia.
    + intuition (lia || discriminate).
  - intros h. apply lots_total_cleanup.
  - split; [|split].
    + intros h. unfold getCostBasisBreakdown, bind, try_catch, get_db, more_query.
      change (more_reliable (SelectBreakdown h)) with (@None Error).
      cbn [db set_db fst]. unfold ret. cbn [fst]. rewrite Hfifo. reflexivity.
    + intros h p. unfold getUnrealizedPnL, bind, try_catch, get_db, query.
      change (reliable (SelectCostTotals h)) with false. cbv iota beta.
      unfold sum_remaining, sum_cost. cbn [db set_db]. rewrite open_lots_cleanup.
      destruct (or_zero_Z (sql_sum_Z (map cb_remaining_amount (open_lots h (db st)))) =? 0);
        reflexivity.
    + rewrite cleanupCostBasis_reliable. cbn [db set_db log].
      rewrite delete_zero_lots_twice. reflexivity.
Qed.






(** ** What a transaction leaves, whatever fails *)



Lemma NoDup_snoc_string (l : list string) (x : string) :
  NoDup l -> ~ In x l -> NoDup (l ++ [x]).
Proof.
  intros Hl Hx. apply NoDup_app; [assumption | repeat constructor; simpl; tauto |].
  intros y Hy [<-|[]]. exact (Hx Hy).
Qed.
























(** What every application of a transaction keeps is kept by the loops
    around it. *)
Section KeptByTheLoops.

Variable fails : Stmt -> bool.
Variable kept : Database -> Prop.
Hypothesis kept_by_one :
  forall transaction st,
    kept (db st) -> kept (db (snd (processTransaction fails transaction st))).






End KeptByTheLoops.





(** ** The lots, whatever fails *)

Lemma lots_only_shrink_refl cb : lots_only_shrink cb cb.
Proof. intros r Hr. exists r. split; [assumption|]. split; [reflexivity | lia]. Qed.

Lemma lots_only_shrink_trans cb1 cb2 cb3 :
  lots_only_shrink cb1 cb2 -> lots_only_shrink cb2 cb3 -> lots_only_shrink cb1 cb3.
Proof.
  intros H12 H23 r Hr.
  destruct (H12 r Hr) as (r2 & Hin2 & Hsame2 & Hle2).
  destruct (H23 r2 Hin2) as (r3 & Hin3 & Hsame3 & Hle3).
  exists r3. split; [assumption|]. split; [congruence | lia].
Qed.

Lemma lots_step_same (A : Type) (m : M A) :
  (forall st, cost_basis (db (snd (m st))) = cost_basis (db st)) -> lots_step m.
Proof.
  intros H st Hwf. rewrite H. split; [assumption | apply lots_only_shrink_refl].
Qed.

Lemma lots_step_query fails s : lots_step (query fails s).
Proof. apply lots_step_same. intros st. unfold query. destruct (fails s); reflexivity. Qed.

Lemma lots_step_bind (A B : Type) (m : M A) (k : A -> M B) :
  lots_step m -> (forall a, lots_step (k a)) -> lots_step (bind m k).
Proof.
  intros Hm Hk st Hwf. unfold bind. destruct (Hm st Hwf) as [H1 H2].
  destruct (m st) as [[a|e] s1]; cbn [snd] in *; [|split; assumption].
  destruct (Hk a s1 H1) as [H3 H4].
  split; [assumption | eapply lots_only_shrink_trans; eassumption].
Qed.

Lemma lots_step_try (A : Type) (m : M A) (h : Error -> M A) :
  lots_step m -> (forall e, lots_step (h e)) -> lots_step (try_catch m h).
Proof.
  intros Hm Hh st Hwf. unfold try_catch. destruct (Hm st Hwf) as [H1 H2].
  destruct (m st) as [[a|e] s1]; cbn [snd] in *; [split; assumption|].
  destruct (Hh e s1 H1) as [H3 H4].
  split; [assumption | eapply lots_only_shrink_trans; eassumption].
Qed.

(** Closes [lots_step m] for an [m] that only reads the lots. *)
Ltac lots_untouched :=
  repeat first
    [ apply lots_step_query
    | apply lots_step_bind; [|intros ?]
    | apply lots_step_try; [|intros ?]
    | apply lots_step_same; intros ?; reflexivity ].

Lemma same_id_same_lot (cb : list CostBasisRow) a b :
  NoDup (map cb_id cb) -> In a cb -> In b cb -> cb_id a = cb_id b -> a = b.
Proof.
  intros Hnd Ha Hb E.
  pose (d := mkDatabase [] [] [] cb).
  pose proof (lot_by_id_unique d a Hnd Ha) as H1.
  pose proof (lot_by_id_unique d b Hnd Hb) as H2.
  rewrite E in H1. congruence.
Qed.

Lemma update_one_lot (cb : list CostBasisRow) (e : CostBasisRow) (n : Z) :
  lots_well_formed cb -> In e cb -> 0 <= n <= cb_remaining_amount e ->
  lots_well_formed (map (set_remaining (cb_id e) n) cb)
  /\ lots_only_shrink cb (map (set_remaining (cb_id e) n) cb)
  /\ (forall e', In e' cb -> cb_id e' <> cb_id e ->
        In e' (map (set_remaining (cb_id e) n) cb)).
Proof.
  intros [Hnd Hbounds] He Hn.
  assert (Hrow : forall r, In r cb ->
            (r = e /\ set_remaining (cb_id e) n r = with_remaining e n)
            \/ (cb_id r <> cb_id e /\ set_remaining (cb_id e) n r = r)).
  { intros r Hr. destruct (Nat.eq_dec (cb_id r) (cb_id e)) as [E|E].
    - left. assert (r = e) by (apply (same_id_same_lot cb); assumption).
      subst r. split; [reflexivity | apply set_remaining_self].
    - right. split; [assumption | apply set_remaining_other; assumption]. }
  rewrite Forall_forall in Hbounds.
  split; [split|split].
  - rewrite map_cb_id_set_remaining. assumption.
  - apply Forall_map, Forall_forall. intros r Hr.
    destruct (Hrow r Hr) as [[-> ->]|[_ ->]]; [|apply Hbounds; assumption].
    specialize (Hbounds e He). unfold lot_in_bounds in *.
    cbn [with_remaining cb_remaining_amount cb_original_amount]. lia.
  - intros r Hr. exists (set_remaining (cb_id e) n r).
    split; [apply in_map; assumption|].
    destruct (Hrow r Hr) as [[-> ->]|[_ ->]].
    + split; [reflexivity|]. cbn [with_remaining cb_remaining_amount]. lia.
    + split; [reflexivity | lia].
  - intros e' He' Hid. apply in_map_iff. exists e'. split; [|assumption].
    apply set_remaining_other. assumption.
Qed.

Lemma sale_loop_shrinks entries : forall salePrice pnl outstanding st,
  lots_well_formed (cost_basis (db st)) ->
  NoDup (map cb_id entries) ->
  Forall (fun e => In e (cost_basis (db st)) /\ 0 < cb_remaining_amount e) entries ->
  lots_well_formed
    (cost_basis (db (snd (sale_loop reliable entries salePrice pnl outstanding st))))
  /\ lots_only_shrink (cost_basis (db st))
       (cost_basis (db (snd (sale_loop reliable entries salePrice pnl outstanding st)))).
Proof.
  induction entries as [|entry rest IH]; intros salePrice pnl outstanding st Hwf Hnd Hin.
  - split; [assumption | apply lots_only_shrink_refl].
  - destruct (Z.le_gt_cases outstanding 0) as [H|H].
    + rewrite sale_loop_break by assumption.
      split; [assumption | apply lots_only_shrink_refl].
    + rewrite sale_loop_step by lia.
      inversion Hnd as [|? ? Hfirst Hrest]; subst.
      inversion Hin as [|? ? [He Hpos] Hothers]; subst.
      set (used := Z.min outstanding (cb_remaining_amount entry)).
      destruct (update_one_lot (cost_basis (db st)) entry
                  (cb_remaining_amount entry - used) Hwf He ltac:(lia))
        as (Hwf1 & Hshrink1 & Hframe).
      match goal with |- context [sale_loop reliable rest ?p ?q ?o ?s] =>
        destruct (IH p q o s) as [Hwf2 Hshrink2] end.
      * exact Hwf1.
      * exact Hrest.
      * rewrite Forall_forall in *. intros e' He'. destruct (Hothers e' He') as [Hc Hp].
        split; [|assumption]. apply Hframe; [assumption|].
        intros E. apply Hfirst. rewrite <- E. apply in_map. assumption.
      * split; [exact Hwf2|].
        eapply lots_only_shrink_trans; [exact Hshrink1 | exact Hshrink2].
Qed.

Lemma processSale_lots fails holderId saleAmount salePrice :
  lots_step (processSale fails holderId saleAmount salePrice).
Proof.
  intros st Hwf.
  destruct (processSale fails holderId saleAmount salePrice st) as [[pnl|e] st'] eqn:H.
  - apply processSale_alike in H. cbn [snd].
    revert H. unfold processSale, bind, try_catch, get_db, query.
    change (reliable (SelectCostBasis holderId)) with false.
    change (reliable (CommitSale holderId)) with false. cbv iota beta.
    destruct (fifo_lots holderId (db st)) as [|lot lots] eqn:El.
    + unfold logger, calculator_rollback, modify_db, ret. cbn [db set_db set_cost_basis].
      intros H. injection H as _ <-. cbn [db cost_basis].
      split; [assumption | apply lots_only_shrink_refl].
    + destruct (sale_loop_shrinks (lot :: lots) salePrice 0%Q saleAmount st Hwf)
        as [Hwf' Hshrink].
      * rewrite <- El. apply fifo_lots_keys. exact (proj1 Hwf).
      * rewrite <- El. apply Forall_forall. intros e0 He0.
        apply fifo_lots_open in He0. tauto.
      * destruct (sale_loop reliable (lot :: lots) salePrice 0%Q saleAmount st)
          as [[[p out]|e0] s1]; cbn [snd] in *.
        -- destruct (0 <? out); unfold logger, ret; cbn;
             intros H; injection H as _ <-; split; assumption.
        -- unfold calculator_rollback, modify_db, logger, throw. cbn. discriminate.
  - destruct (processSale_throw fails holderId saleAmount salePrice st e st' H) as [Hdb _].
    cbn [snd]. rewrite Hdb. split; [assumption | apply lots_only_shrink_refl].
Qed.

Lemma addPurchase_lots fails holderId transactionId amount price time :
  0 <= amount ->
  lots_step (addPurchase fails holderId transactionId amount price time).
Proof.
  intros Hamount st [Hnd Hbounds].
  unfold addPurchase, try_catch, bind, query.
  destruct (fails (InsertCostBasis holderId)).
  - cbn. split; [split; assumption | apply lots_only_shrink_refl].
  - cbn [modify_db snd db set_db cost_basis set_cost_basis]. cbv zeta.
    cbn [snd db set_db cost_basis set_cost_basis].
    split; [split|].
    + rewrite map_app. cbn [map cb_id].
      apply NoDup_app; [assumption | repeat constructor; simpl; tauto |].
      intros x Hx [<-|[]]. exact (fresh_id_fresh _ Hx).
    + apply Forall_app. split; [assumption|]. repeat constructor; simpl; lia.
    + intros r Hr. exists r. split; [apply in_or_app; left; assumption|].
      split; [reflexivity | lia].
Qed.

Lemma getTotalCostBasis_lots fails holderId : lots_step (getTotalCostBasis fails holderId).
Proof. unfold getTotalCostBasis. lots_untouched. Qed.

Lemma updatePositionForTransaction_lots fails holderId position transaction transactionId :
  (transactionType transaction = buy -> 0 <= amount transaction) ->
  lots_step (updatePositionForTransaction fails holderId position transaction transactionId).
Proof.
  intros Hamount. unfold updatePositionForTransaction. cbv zeta.
  apply lots_step_bind.
  - destruct (transactionType transaction).
    + apply lots_step_bind; [apply addPurchase_lots; auto|]. intros _. lots_untouched.
    + apply lots_step_bind; [apply processSale_lots|]. intros ?. lots_untouched.
    + lots_untouched.
  - intros [[[b tb] ts] pnl].
    apply lots_step_bind.
    + destruct (0 <? tb); [|lots_untouched].
      apply lots_step_bind; [apply getTotalCostBasis_lots|]. intros ?. lots_untouched.
    + intros average. lots_untouched.
Qed.

Lemma processTransaction_lots fails transaction :
  (transactionType transaction = buy -> 0 <= amount transaction) ->
  lots_step (processTransaction fails transaction).
Proof.
  intros Hamount. unfold processTransaction.
  apply lots_step_bind; [lots_untouched|]. intros begin.
  apply lots_step_try; [|intros e; unfold client_rollback; lots_untouched].
  apply lots_step_bind; [lots_untouched|]. intros _.
  apply lots_step_bind; [lots_untouched|]. intros d.
  destruct (signature_exists (signature transaction) d).
  { unfold client_rollback. lots_untouched. }
  apply lots_step_bind.
  { unfold ensureTokenExists. apply lots_step_bind; [lots_untouched|]. intros _.
    apply lots_step_bind; [lots_untouched|]. intros d0.
    destruct (find _ (tokens d0)); lots_untouched. }
  intros tokenId.
  apply lots_step_bind; [unfold insert_transaction; lots_untouched|]. intros transactionId.
  apply lots_step_bind; [|intros _; lots_untouched].
  unfold updateHolderPosition.
  apply lots_step_bind; [lots_untouched|]. intros _.
  apply lots_step_bind; [lots_untouched|]. intros d1.
  destruct (find_holder tokenId (walletAddress transaction) d1).
  - apply updatePositionForTransaction_lots. assumption.
  - apply lots_step_bind; [lots_untouched|]. intros _.
    apply lots_step_bind; [lots_untouched|]. intros _.
    apply updatePositionForTransaction_lots. assumption.
Qed.

(** Whatever statements the store fails on, when no purchase has a negative
    amount: after any list of transactions the lots still have distinct
    keys, each holds between nothing and what was bought
    ([0 <= remaining_amount <= original_amount]), and no lot has been
    deleted, changed in anything but its remaining amount, or given a larger
    remaining amount than it had. *)
Theorem lots_stay_in_bounds :
  forall fails l st,
    lots_well_formed (cost_basis (db st)) ->
    Forall (fun transaction =>
              transactionType transaction = buy -> 0 <= amount transaction) l ->
    lots_well_formed (cost_basis (db (snd (processAll fails l st))))
    /\ lots_only_shrink (cost_basis (db st))
         (cost_basis (db (snd (processAll fails l st)))).
Proof.
  intros fails l. induction l as [|transaction rest IH]; intros st Hwf Hamounts.
  - split; [assumption | apply lots_only_shrink_refl].
  - inversion Hamounts as [|? ? Hfirst Hrest]; subst.
    rewrite processAll_cons.
    destruct (processTransaction_lots fails transaction Hfirst st Hwf) as [Hwf1 Hshrink1].
    destruct (processTransaction fails transaction st) as [[[]|e] s1]; cbn [snd] in *.
    + destruct (IH s1 Hwf1 Hrest) as [Hwf2 Hshrink2].
      split; [assumption | eapply lots_only_shrink_trans; eassumption].
    + split; assumption.
Qed.

Lemma lots_stay_in_bounds_witness :
  lots_well_formed (cost_basis (db lot_A_and_lot_B))
  /\ lots_well_formed
       (cost_basis (db (snd (processAll holder_update_fails [sell_C] lot_A_and_lot_B))))
  /\ lots_only_shrink (cost_basis (db lot_A_and_lot_B))
       (cost_basis (db (snd (processAll holder_update_fails [sell_C] lot_A_and_lot_B)))).
Proof.
  assert (H : lots_well_formed (cost_basis (db lot_A_and_lot_B))).
  { split.
    - vm_compute. repeat constructor; simpl; intuition discriminate.
    - repeat constructor; vm_compute; discriminate. }
  split; [exact H|].
  apply (lots_stay_in_bounds holder_update_fails [sell_C] lot_A_and_lot_B H).
  repeat constructor. discriminate.
Defined.

(** ** The queue and the historical data *)

(** A list of transactions is applied to the end, or up to one that throws. *)
Lemma processAll_ends fails l : forall st,
  (exists st', processAll fails l st = (Ok tt, st'))
  \/ (exists before failed after e s1 s2,
        l = before ++ failed :: after
        /\ processAll fails before st = (Ok tt, s1)
        /\ processTransaction fails failed s1 = (Throw e, s2)
        /\ processAll fails l st = (Throw e, s2)).
Proof.
  induction l as [|transaction rest IH]; intros st.
  - left. exists st. reflexivity.
  - rewrite processAll_cons.
    destruct (processTransaction fails transaction st) as [[[]|e] s1] eqn:E.
    + destruct (IH s1) as [(st' & H)|(before & failed & after & e & s2 & s3 & -> & H1 & H2 & H3)].
      * left. exists st'. exact H.
      * right. exists (transaction :: before), failed, after, e, s2, s3.
        split; [reflexivity|]. split; [|split; assumption].
        rewrite processAll_cons, E. exact H1.
    + right. exists [], transaction, rest, e, st, s1.
      split; [reflexivity|]. split; [reflexivity|]. split; [exact E | reflexivity].
Qed.

(** Whatever statements the store fails on, [handleTransaction] returns
    normally.  While a drain is running it only puts the transaction at the
    end of the queue.  Otherwise it drains the queue with the transaction at
    its end, in arrival order, and leaves the processor idle: either every
    item was applied and the queue is empty, or the items up to the first
    one that throws were taken off the queue, the ones before it applied,
    the error logged, and the items behind it are still queued. *)
Theorem handleTransaction_always_returns :
  forall fails transaction p,
    exists p',
      handleTransaction fails transaction p = (Ok tt, p')
      /\ isProcessing p' = isProcessing p
      /\ (isProcessing p = true ->
          store p' = store p /\ processingQueue p' = processingQueue p ++ [transaction])
      /\ (isProcessing p = false ->
          (processingQueue p' = []
           /\ processAll fails (processingQueue p ++ [transaction]) (store p)
              = (Ok tt, store p'))
          \/ (exists before failed e s1 s2,
                processingQueue p ++ [transaction]
                = before ++ failed :: processingQueue p'
                /\ processAll fails before (store p) = (Ok tt, s1)
                /\ processTransaction fails failed s1 = (Throw e, s2)
                /\ store p'
                   = mkStore (db s2)
                       (log s2 ++ [LogError "Error processing transaction queue:" e]))).
Proof.
  intros fails transaction p. unfold handleTransaction. cbn [isProcessing].
  destruct (isProcessing p) eqn:Hbusy.
  - eexists. split; [reflexivity|]. cbn [isProcessing store processingQueue].
    split; [reflexivity|]. split; [auto | discriminate].
  - unfold processQueue. cbn [isProcessing processingQueue store orb].
    replace (List.length (processingQueue p ++ [transaction]) =? 0)%nat with false
      by (symmetry; apply Nat.eqb_neq; rewrite length_app; simpl; lia).
    cbv zeta.
    destruct (processAll_ends fails (processingQueue p ++ [transaction]) (store p))
      as [(st' & H)|(before & failed & after & e & s1 & s2 & Hq & H1 & H2 & _)].
    + rewrite (drain_all_ok fails (processingQueue p ++ [transaction])
                 (mkProcessor (store p) (processingQueue p ++ [transaction]) true)
                 st' eq_refl H).
      eexists. split; [reflexivity|]. cbn [isProcessing store processingQueue].
      split; [reflexivity|]. split; [discriminate|]. intros _. left.
      split; [reflexivity | exact H].
    + rewrite Hq.
      rewrite (drain_failure fails before
                 (mkProcessor (store p) (before ++ failed :: after) true)
                 failed after e s1 s2 H1 H2).
      eexists. split; [reflexivity|]. cbn [isProcessing store processingQueue].
      split; [reflexivity|]. split; [discriminate|]. intros _. right.
      exists before, failed, e, s1, s2. repeat split; assumption.
Qed.

Lemma handleTransaction_always_returns_witness :
  exists p',
    handleTransaction insert_of_t1_fails t2 (mkProcessor initial_store [t1] false)
    = (Ok tt, p')
    /\ isProcessing p' = false
    /\ processingQueue p' = [t2].
Proof.
  destruct (handleTransaction_always_returns insert_of_t1_fails t2
              (mkProcessor initial_store [t1] false))
    as (p' & Hrun & Hidle & _ & Hdrain).
  exists p'. split; [exact Hrun|]. split; [exact Hidle|].
  clear Hidle Hdrain. vm_compute in Hrun. injection Hrun as <-. reflexivity.
Defined.

Lemma insert_by_blockTime_perm x l : Permutation (x :: l) (insert_by_blockTime x l).
Proof.
  induction l as [|y l IH]; cbn [insert_by_blockTime]; [reflexivity|].
  destruct (blockTime x <=? blockTime y); [reflexivity|].
  rewrite perm_swap. apply perm_skip. exact IH.
Qed.

Lemma sort_by_blockTime_perm l : Permutation l (sort_by_blockTime l).
Proof.
  unfold sort_by_blockTime. induction l as [|x l IH]; cbn [fold_right]; [constructor|].
  rewrite <- insert_by_blockTime_perm. apply perm_skip. exact IH.
Qed.

Lemma insert_by_blockTime_sorted x l :
  StronglySorted by_block_time l -> StronglySorted by_block_time (insert_by_blockTime x l).
Proof.
  induction 1 as [|y l Hl IH Hy]; cbn [insert_by_blockTime].
  - repeat constructor.
  - destruct (Z.leb_spec (blockTime x) (blockTime y)) as [Hle|Hgt].
    + constructor; [constructor; assumption|].
      constructor; [exact Hle|].
      rewrite Forall_forall in *. intros z Hz. specialize (Hy z Hz).
      unfold by_block_time in *. lia.
    + constructor; [exact IH|].
      rewrite Forall_forall in *. intros z Hz.
      apply (Permutation_in _ (Permutation_sym (insert_by_blockTime_perm x l))) in Hz.
      destruct Hz as [<-|Hz]; [unfold by_block_time; lia | apply Hy; assumption].
Qed.

Lemma sort_by_blockTime_sorted l : StronglySorted by_block_time (sort_by_blockTime l).
Proof.
  unfold sort_by_blockTime. induction l as [|x l IH]; cbn [fold_right]; [constructor|].
  apply insert_by_blockTime_sorted. exact IH.
Qed.

Lemma insert_by_blockTime_first x l :
  Forall (by_block_time x) l -> insert_by_blockTime x l = x :: l.
Proof.
  intros H. destruct l as [|y l]; [reflexivity|]. cbn [insert_by_blockTime].
  inversion H as [|? ? Hy _]; subst. unfold by_block_time in Hy.
  destruct (Z.leb_spec (blockTime x) (blockTime y)); [reflexivity | lia].
Qed.

Lemma sort_by_blockTime_sorted_input l :
  StronglySorted by_block_time l -> sort_by_blockTime l = l.
Proof.
  unfold sort_by_blockTime. induction 1 as [|x l Hl IH Hx]; cbn [fold_right]; [reflexivity|].
  rewrite IH. apply insert_by_blockTime_first. exact Hx.
Qed.

Lemma insert_by_blockTime_swap x y l :
  blockTime x <> blockTime y ->
  insert_by_blockTime x (insert_by_blockTime y l)
  = insert_by_blockTime y (insert_by_blockTime x l).
Proof.
  intros Hne. induction l as [|z l IH]; cbn [insert_by_blockTime].
  - destruct (Z.leb_spec (blockTime x) (blockTime y)),
             (Z.leb_spec (blockTime y) (blockTime x)); (reflexivity || lia).
  - destruct (Z.leb_spec (blockTime y) (blockTime z)),
             (Z.leb_spec (blockTime x) (blockTime z)); cbn [insert_by_blockTime];
      repeat match goal with
             | |- context [?a <=? ?b] => destruct (Z.leb_spec a b)
             end; try reflexivity; try lia.
    rewrite IH. reflexivity.
Qed.

Lemma sort_by_blockTime_any_order l l' :
  Permutation l l' -> NoDup (map blockTime l) ->
  sort_by_blockTime l = sort_by_blockTime l'.
Proof.
  unfold sort_by_blockTime.
  induction 1 as [|x l l' Hperm IH|x y l|l l' l'' H1 IH1 H2 IH2]; intros Hnd;
    cbn [fold_right map] in *.
  - reflexivity.
  - inversion Hnd; subst. rewrite IH by assumption. reflexivity.
  - inversion Hnd as [|? ? Hy _]; subst.
    apply insert_by_blockTime_swap. intros E. apply Hy. left. symmetry. exact E.
  - rewrite IH1 by assumption. apply IH2.
    eapply Permutation_NoDup; [apply Permutation_map; exact H1 | exact Hnd].
Qed.

(** [processHistoricalData] applies the fetched transactions in the order of
    their block times, whatever order they were fetched in: the list it
    applies is the fetched one rearranged with block times ascending; a
    list that is fetched in that order is applied as it is; and when no two
    transactions share a block time, fetching them in another order gives
    the same result. *)
Theorem historical_data_goes_by_block_time :
  forall fails tokenAddress l,
    (exists ordered,
        Permutation l ordered
        /\ StronglySorted by_block_time ordered
        /\ forall st,
             processHistoricalData fails tokenAddress (Ok l) st
             = processHistoricalData fails tokenAddress (Ok ordered) st)
    /\ (StronglySorted by_block_time l ->
        forall st st',
          processAll fails l st = (Ok tt, st') ->
          processHistoricalData fails tokenAddress (Ok l) st = (Ok tt, st'))
    /\ (NoDup (map blockTime l) ->
        forall l' st,
          Permutation l l' ->
          processHistoricalData fails tokenAddress (Ok l') st
          = processHistoricalData fails tokenAddress (Ok l) st).
Proof.
  intros fails tokenAddress l. split; [|split].
  - exists (sort_by_blockTime l).
    split; [apply sort_by_blockTime_perm|].
    split; [apply sort_by_blockTime_sorted|].
    intros st. unfold processHistoricalData.
    rewrite (sort_by_blockTime_sorted_input (sort_by_blockTime l))
      by apply sort_by_blockTime_sorted.
    reflexivity.
  - intros Hsorted st st' Hrun. unfold processHistoricalData, try_catch.
    rewrite (sort_by_blockTime_sorted_input l Hsorted), Hrun. reflexivity.
  - intros Hnd l' st Hperm. unfold processHistoricalData.
    rewrite (sort_by_blockTime_any_order l l' Hperm Hnd). reflexivity.
Qed.

Lemma historical_data_goes_by_block_time_witness :
  NoDup (map blockTime [buy_B; buy_A])
  /\ processHistoricalData reliable "MONKE" (Ok [buy_A; buy_B]) initial_store
     = processHistoricalData reliable "MONKE" (Ok [buy_B; buy_A]) initial_store
  /\ processHistoricalData reliable "MONKE" (Ok [buy_A; buy_B]) initial_store
     = (Ok tt, lot_A_and_lot_B).
Proof.
  assert (Hnd : NoDup (map blockTime [buy_B; buy_A])).
  { repeat constructor; simpl; intuition discriminate. }
  assert (Hsorted : StronglySorted by_block_time [buy_A; buy_B]).
  { repeat constructor. unfold by_block_time. simpl. lia. }
  destruct (historical_data_goes_by_block_time reliable "MONKE" [buy_B; buy_A])
    as (_ & _ & Horder).
  destruct (historical_data_goes_by_block_time reliable "MONKE" [buy_A; buy_B])
    as (_ & Hgiven & _).
  split; [exact Hnd|]. split.
  - apply (Horder Hnd [buy_A; buy_B] initial_store). apply perm_swap.
  - apply (Hgiven Hsorted initial_store lot_A_and_lot_B).
    unfold lot_A_and_lot_B.
    destruct (processAll reliable [buy_A; buy_B] initial_store) as [[[]|e] s] eqn:E;
      [reflexivity | vm_compute in E; discriminate].
Defined.

Lemma processAll_known l : forall st,
  Forall (fun t => signature_exists (signature t) (db st) = true) l ->
  processAll reliable l st = (Ok tt, st).
Proof.
  induction l as [|transaction rest IH]; intros st H; [reflexivity|].
  inversion H as [|? ? Hfirst Hrest]; subst.
  rewrite processAll_cons.
  rewrite (processTransaction_duplicate reliable transaction st eq_refl Hfirst).
  apply IH. exact Hrest.
Qed.

(** When [processHistoricalData] has returned normally (on a store that may
    fail), processing the same history again, or any part of it in any
    order, on a store that does not fail returns normally and changes
    neither a row nor the log. *)
Theorem historical_data_twice :
  forall fails tokenAddress l st st',
    processHistoricalData fails tokenAddress (Ok l) st = (Ok tt, st') ->
    forall l', incl l' l ->
      processHistoricalData reliable tokenAddress (Ok l') st' = (Ok tt, st').
Proof.
  intros fails tokenAddress l st st' Hrun l' Hincl.
  unfold processHistoricalData, try_catch in Hrun.
  destruct (processAll fails (sort_by_blockTime l) st) as [[[]|e] s1] eqn:E;
    [|unfold bind, logger, throw in Hrun; discriminate].
  injection Hrun as ->.
  apply processAll_alike in E.
  unfold processHistoricalData, try_catch.
  rewrite processAll_known; [reflexivity|].
  apply Forall_forall. intros t Ht.
  apply (Permutation_in _ (Permutation_sym (sort_by_blockTime_perm l'))) in Ht.
  apply Hincl in Ht.
  apply (Permutation_in _ (sort_by_blockTime_perm l)) in Ht.
  destruct (processAll_reliable_signatures (sort_by_blockTime l) st (signature t)
              (or_intror (in_map signature _ t Ht))) as [_ Hsig].
  rewrite E in Hsig. exact Hsig.
Qed.

Lemma historical_data_twice_witness :
  processHistoricalData transaction_commit_fails "MONKE" (Ok [buy_B; buy_A]) lot_A_and_lot_B
  = (Ok tt, lot_A_and_lot_B)
  /\ processHistoricalData reliable "MONKE" (Ok [buy_A]) lot_A_and_lot_B
     = (Ok tt, lot_A_and_lot_B).
Proof.
  assert (H : processHistoricalData transaction_commit_fails "MONKE" (Ok [buy_B; buy_A])
                lot_A_and_lot_B = (Ok tt, lot_A_and_lot_B)) by reflexivity.
  split; [exact H|].
  apply (historical_data_twice transaction_commit_fails "MONKE" [buy_B; buy_A]
           lot_A_and_lot_B lot_A_and_lot_B H [buy_A]).
  intros t [<-|[]]. right. left. reflexivity.
Defined.

(** ** The amounts of the price levels *)

Lemma Qeq_bool_sym_false a b : Qeq_bool a b = false -> Qeq_bool b a = false.
Proof.
  intros H. destruct (Qeq_bool b a) eqn:E; [|reflexivity].
  apply Qeq_bool_eq in E. symmetry in E. apply Qeq_eq_bool in E. congruence.
Qed.











(** ** Zones and the summary *)

Lemma zones_cover currentPrice (rows : list ZoneRow) :
  (List.length (rows_in_zone Profit currentPrice rows)
   + List.length (rows_in_zone Loss currentPrice rows)
   + List.length (rows_in_zone BreakEven currentPrice rows))%nat
  = List.length rows
  /\ (value_in_zone Profit currentPrice rows + value_in_zone Loss currentPrice rows
      + value_in_zone BreakEven currentPrice rows
      == inject_Z (sum_Z (map zr_current_balance rows)) * currentPrice)%Q.
Proof.
  unfold value_in_zone, rows_in_zone, sum_Q, sum_Z.
  induction rows as [|row rows [IH1 IH2]]; cbn [filter map fold_right List.length].
  - split; [reflexivity | ring].
  - rewrite inject_Z_plus.
    set (value := (inject_Z (zr_current_balance row) * currentPrice)%Q).
    set (total := inject_Z (fold_right Z.add 0 (map zr_current_balance rows))) in *.
    assert (Hall : forall a b c : Q,
               (a + b + c == total * currentPrice ->
                value + (a + b + c) == (inject_Z (zr_current_balance row) + total)
                                       * currentPrice)%Q).
    { intros a b c E. rewrite E. unfold value. ring. }
    destruct (zone_of currentPrice (zr_average_cost_basis row));
      cbn [Zone_eqb map fold_right List.length]; fold value; split; try lia;
      rewrite <- (Hall _ _ _ IH2); ring.
Qed.

Lemma zones_of_store st tokenId currentPrice :
  exists z,
    calculateProfitLossZones reliable tokenId currentPrice st = (Ok z, st)
    /\ (profitHolders z + lossHolders z + breakEvenHolders z)%nat = totalHolders z.
Proof.
  unfold calculateProfitLossZones, bind, try_catch, get_db, query.
  change (reliable (SelectHolderZones tokenId)) with false. cbv iota beta.
  eexists. split; [reflexivity|]. unfold zones_of_rows.
  set (rows := zone_rows tokenId (db st)).
  destruct (zones_fold currentPrice rows
              (mkProfitLossZones 0 0 0 (List.length rows) 0 0 0))
    as (H1 & H2 & H3 & H4 & _).
  destruct (zones_cover currentPrice rows) as [Hcount _].
  cbn [profitHolders lossHolders breakEvenHolders totalHolders] in *.
  rewrite H1, H2, H3, H4. lia.
Qed.


Lemma sorted_apart (l1 l2 : list PriceLevel) :
  StronglySorted larger_first (l1 ++ l2) ->
  forall a b, In a l1 -> In b l2 -> larger_first a b.
Proof.
  induction l1 as [|x l1 IH]; cbn [app]; intros H a b Ha Hb; [contradiction|].
  inversion H as [|? ? Hrest Hx]; subst.
  destruct Ha as [<-|Ha].
  - rewrite Forall_forall in Hx. apply Hx. apply in_or_app. right. assumption.
  - apply IH; assumption.
Qed.

(** On a store that does not fail, [getAnalyticsSummary] returns normally
    and writes nothing.  Its [topPriceLevels] are the first ten levels of
    [getHolderPriceLevels] at 5%, or all of them when there are fewer: no
    level that is left out has a larger amount than one that is kept.  Its
    [totalHolders] is the sum of the three zone counts of its breakdown.
    With no active holder of the token both the average and the median are
    0. *)
Theorem summary_keeps_the_largest_levels :
  forall st tokenId currentPrice,
    exists s levels rest,
      getAnalyticsSummary reliable more_reliable tokenId currentPrice st = (Ok s, st)
      /\ getHolderPriceLevels reliable tokenId 5 st = (Ok levels, st)
      /\ levels = s_topPriceLevels s ++ rest
      /\ List.length (s_topPriceLevels s) = Nat.min 10 (List.length levels)
      /\ (forall a b, In a (s_topPriceLevels s) -> In b rest ->
            pl_totalAmount b <= pl_totalAmount a)
      /\ s_totalHolders s
         = (profitHolders (s_profitLossBreakdown s) + lossHolders (s_profitLossBreakdown s)
            + breakEvenHolders (s_profitLossBreakdown s))%nat
      /\ (filter (is_active_holder_of tokenId) (holders (db st)) = [] ->
          s_averageHolderCostBasis s = 0%Q /\ s_medianHolderCostBasis s = 0%Q).
Proof.
  intros st tokenId currentPrice.
  destruct (zones_of_store st tokenId currentPrice) as (z & Hz & Hcount).
  unfold getAnalyticsSummary, try_catch.
  unfold bind at 1. rewrite Hz.
  unfold getHolderPriceLevels, bind, try_catch, get_db, query, more_query.
  change (reliable (SelectSupply tokenId)) with false.
  change (reliable (SelectPriceDistribution tokenId)) with false.
  change (more_reliable (SelectAverageBuyPrice tokenId)) with (@None Error).
  change (more_reliable (SelectMedianBuyPrice tokenId)) with (@None Error).
  cbv iota beta. unfold ret.
  set (levels := price_levels tokenId 5 (db st)).
  eexists. exists levels, (skipn 10 levels).
  split; [reflexivity|]. split; [reflexivity|].
  cbn [s_topPriceLevels s_totalHolders s_profitLossBreakdown s_averageHolderCostBasis
       s_medianHolderCostBasis].
  split; [symmetry; apply firstn_skipn|].
  split; [apply length_firstn|].
  split.
  - apply (sorted_apart (firstn 10 levels) (skipn 10 levels)).
    rewrite firstn_skipn. unfold levels, price_levels. apply sort_by_amount_desc_sorted.
  - split; [symmetry; exact Hcount|].
    intros Hnone. unfold positive_average_buy_prices, average_buy_prices.
    rewrite Hnone. split; reflexivity.
Qed.

Lemma summary_keeps_the_largest_levels_witness :
  exists s,
    getAnalyticsSummary reliable more_reliable 1 3 initial_store = (Ok s, initial_store)
    /\ s_averageHolderCostBasis s = 0%Q
    /\ s_medianHolderCostBasis s = 0%Q.
Proof.
  destruct (summary_keeps_the_largest_levels initial_store 1%nat 3%Q)
    as (s & levels & rest & Hrun & _ & _ & _ & _ & _ & Hnone).
  exists s. split; [exact Hrun|]. apply Hnone. reflexivity.
Defined.

(** ** The methods that only read *)

Lemma reads_only_pure (A : Type) (m : M A) :
  (forall st, snd (m st) = st) -> reads_only m.
Proof. intros H st. rewrite H. split; reflexivity. Qed.

Lemma reads_only_query fails s : reads_only (query fails s).
Proof. apply reads_only_pure. intros st. unfold query. destruct (fails s); reflexivity. Qed.

Lemma reads_only_more_query more_fails s : reads_only (more_query more_fails s).
Proof.
  apply reads_only_pure. intros st. unfold more_query.
  destruct (more_fails s); reflexivity.
Qed.

Lemma reads_only_bind (A B : Type) (m : M A) (k : A -> M B) :
  reads_only m -> (forall a, reads_only (k a)) -> reads_only (bind m k).
Proof.
  intros Hm Hk st. unfold bind. destruct (Hm st) as [H1 H2].
  destruct (m st) as [[a|e] s1]; cbn [fst snd] in *.
  - destruct (Hk a s1) as [H3 H4]. split; [congruence|].
    intros b Hb. rewrite (H4 b Hb). apply (H2 a). reflexivity.
  - split; [assumption | discriminate].
Qed.

Lemma reads_only_try (A : Type) (m : M A) (message : string) :
  reads_only m ->
  reads_only (try_catch m (fun error => logger (LogError message error) ;;; throw error)).
Proof.
  intros Hm st. unfold try_catch. destruct (Hm st) as [H1 H2].
  destruct (m st) as [[a|e] s1]; cbn [fst snd] in *.
  - split; [assumption|]. intros b Hb. injection Hb as <-. apply (H2 a). reflexivity.
  - unfold bind, logger, throw. cbn. split; [assumption | discriminate].
Qed.

(** Closes [reads_only m] for the methods of the calculator that read. *)
Ltac only_reads :=
  repeat first
    [ apply reads_only_query
    | apply reads_only_more_query
    | apply reads_only_try
    | apply reads_only_bind; [|intros ?]
    | apply reads_only_pure; intros ?; reflexivity ].

Lemma calculateProfitLossZones_reads fails tokenId currentPrice :
  reads_only (calculateProfitLossZones fails tokenId currentPrice).
Proof. unfold calculateProfitLossZones. only_reads. Qed.

Lemma getHolderPriceLevels_reads fails tokenId priceRangePercent :
  reads_only (getHolderPriceLevels fails tokenId priceRangePercent).
Proof. unfold getHolderPriceLevels. only_reads. Qed.

(** Whatever statements the store fails on, the methods of the calculator
    that compute metrics write no row; when they return normally they have
    logged nothing either.  (When they throw they have logged the error.) *)
Theorem metrics_only_read :
  forall fails more_fails holderId tokenId price priceRangePercent,
    reads_only (getTotalCostBasis fails holderId)
    /\ reads_only (getWeightedAverageCostBasis fails holderId)
    /\ reads_only (getUnrealizedPnL fails holderId price)
    /\ reads_only (getCostBasisBreakdown more_fails holderId)
    /\ reads_only (calculateProfitLossZones fails tokenId price)
    /\ reads_only (getHolderPriceLevels fails tokenId priceRangePercent)
    /\ reads_only (getAnalyticsSummary fails more_fails tokenId price).
Proof.
  intros fails more_fails holderId tokenId price priceRangePercent.
  split; [unfold getTotalCostBasis; only_reads|].
  split.
  { unfold getWeightedAverageCostBasis. only_reads.
    match goal with |- context [if ?b then _ else _] => destruct b end; only_reads. }
  split.
  { unfold getUnrealizedPnL. only_reads.
    match goal with |- context [if ?b then _ else _] => destruct b end; only_reads. }
  split; [unfold getCostBasisBreakdown; only_reads|].
  split; [apply calculateProfitLossZones_reads|].
  split; [apply getHolderPriceLevels_reads|].
  unfold getAnalyticsSummary. apply reads_only_try.
  apply reads_only_bind; [apply calculateProfitLossZones_reads|]. intros z.
  apply reads_only_bind; [apply getHolderPriceLevels_reads|]. intros levels.
  only_reads.
Qed.

(** ** A purchase in the metrics *)



(** ** The feed client *)

Section FeedClient.

Import SolanaTrackerClient.

Lemma set_add_member x s : existsb (String.eqb x) s = true -> set_add x s = s.
Proof. unfold set_add. intros ->. reflexivity. Qed.

Lemma set_add_keeps x s : NoDup s -> NoDup (set_add x s).
Proof.
  unfold set_add. intros H. destruct (existsb (String.eqb x) s) eqn:E; [assumption|].
  apply NoDup_snoc_string; [assumption|]. intros Hin.
  assert (existsb (String.eqb x) s = true); [|congruence].
  apply existsb_exists. exists x. split; [assumption | apply String.eqb_refl].
Qed.

Lemma set_delete_keeps x s : NoDup s -> NoDup (set_delete x s).
Proof. unfold set_delete. apply NoDup_filter. Qed.

Lemma backoff_delay (n : nat) :
  (n < 10)%nat ->
  Z.min (1000 * 2 ^ (Z.of_nat (S n) - 1)) 30000 = backoff n /\ 1000 <= backoff n <= 30000.
Proof.
  intros Hn. replace (Z.of_nat (S n) - 1) with (Z.of_nat n) by lia.
  unfold backoff.
  do 10 (destruct n as [|n]; [vm_compute; split; [reflexivity | split; discriminate]|]).
  lia.
Qed.

Lemma handleReconnection_retries c :
  reconnectDelay c = 1000 -> (reconnectAttempts c < 10)%nat ->
  handleReconnection c
  = (mkClient (ws c) (S (reconnectAttempts c)) 1000 (heartbeatInterval c) (isConnected c)
       (subscribedTokens c),
     [SetTimeout (backoff (reconnectAttempts c))]).
Proof.
  intros Hdelay Hn. unfold handleReconnection, maxReconnectAttempts.
  destruct (Nat.leb_spec 10 (reconnectAttempts c)); [lia|]. cbv zeta.
  rewrite Hdelay. rewrite (proj1 (backoff_delay (reconnectAttempts c) Hn)). reflexivity.
Qed.

Lemma handleReconnection_gives_up c :
  (10 <= reconnectAttempts c)%nat ->
  handleReconnection c = (c, [Emit_maxReconnectAttemptsReached]).
Proof.
  intros Hn. unfold handleReconnection, maxReconnectAttempts.
  destruct (Nat.leb_spec 10 (reconnectAttempts c)); [reflexivity | lia].
Qed.

Lemma handleReconnection_keeps c :
  well_formed c ->
  well_formed (fst (handleReconnection c))
  /\ Forall delay_in_bounds (snd (handleReconnection c)).
Proof.
  intros (Hdelay & Hmax & Hnd & Hws). unfold maxReconnectAttempts in Hmax.
  destruct (Nat.le_gt_cases 10 (reconnectAttempts c)) as [Hn|Hn].
  - rewrite handleReconnection_gives_up by assumption. cbn [fst snd].
    split; [repeat split; assumption | repeat constructor].
  - rewrite handleReconnection_retries by assumption. cbn [fst snd].
    split.
    + unfold well_formed, maxReconnectAttempts.
      cbn [reconnectDelay reconnectAttempts subscribedTokens isConnected ws].
      repeat split; try assumption; try lia.
    + repeat constructor; apply (backoff_delay (reconnectAttempts c)); lia.
Qed.

Lemma subscribeToToken_keeps tokenAddress c :
  well_formed c ->
  well_formed (fst (subscribeToToken tokenAddress c))
  /\ Forall delay_in_bounds (snd (subscribeToToken tokenAddress c)).
Proof.
  intros (Hdelay & Hmax & Hnd & Hws). unfold subscribeToToken.
  destruct (negb (isConnected c) || negb (ws c)); cbn [fst snd].
  - split; [repeat split; assumption | constructor].
  - split; [|repeat constructor].
    unfold well_formed. cbn [reconnectDelay reconnectAttempts subscribedTokens isConnected ws].
    repeat split; try assumption. apply set_add_keeps. assumption.
Qed.

Lemma resubscribe_keeps addresses : forall c,
  well_formed c ->
  well_formed (fst (resubscribe addresses c))
  /\ Forall delay_in_bounds (snd (resubscribe addresses c)).
Proof.
  induction addresses as [|tokenAddress rest IH]; intros c H; cbn [resubscribe].
  - split; [exact H | constructor].
  - destruct (subscribeToToken_keeps tokenAddress c H) as [H1 H2].
    destruct (subscribeToToken tokenAddress c) as [c1 sent]. cbn [fst snd] in *.
    destruct (IH c1 H1) as [H3 H4].
    destruct (resubscribe rest c1) as [c2 more]. cbn [fst snd] in *.
    split; [exact H3 | apply Forall_app; split; assumption].
Qed.

Lemma step_keeps c e :
  well_formed c ->
  well_formed (fst (step c e)) /\ Forall delay_in_bounds (snd (step c e)).
Proof.
  intros H. pose proof H as (Hdelay & Hmax & Hnd & Hws).
  destruct e as [opened| |opened|tokenAddress|tokenAddress| |]; cbn [step].
  - cbn [fst snd]. split; [|constructor].
    unfold connect. destruct opened; cbn [snd].
    + unfold well_formed, maxReconnectAttempts. cbn. repeat split; try assumption; try lia.
    + unfold well_formed. cbn. repeat split; assumption.
  - unfold closed. apply handleReconnection_keeps.
    unfold well_formed. cbn. repeat split; try assumption. discriminate.
  - unfold reconnect, connect. destruct opened.
    + apply resubscribe_keeps.
      unfold well_formed, maxReconnectAttempts. cbn. repeat split; try assumption; try lia.
    + apply handleReconnection_keeps.
      unfold well_formed. cbn. repeat split; assumption.
  - apply subscribeToToken_keeps. exact H.
  - unfold unsubscribeFromToken.
    destruct (negb (isConnected c) || negb (ws c)); cbn [fst snd].
    + split; [exact H | constructor].
    + split; [|repeat constructor].
      unfold well_formed. cbn. repeat split; try assumption.
      apply set_delete_keeps. assumption.
  - unfold subscribeToNewLaunches.
    destruct (negb (isConnected c) || negb (ws c)); cbn [fst snd];
      (split; [exact H | repeat constructor]).
  - cbn [fst snd]. split; [|constructor].
    unfold well_formed, disconnect. cbn. repeat split; try assumption.
    + constructor.
    + discriminate.
Qed.

(** Whatever happens to a client, in whatever order (connecting, the socket
    closing, a reconnection that opens or not, subscribing, unsubscribing,
    disconnecting): it has made at most ten attempts to reconnect since it
    was last connected, every timer it has set for a reconnection is
    between one and thirty seconds, no token is subscribed twice, and a
    connected client has a socket. *)
Theorem client_stays_well_formed :
  forall events c,
    well_formed c ->
    well_formed (fst (run events c)) /\ Forall delay_in_bounds (snd (run events c)).
Proof.
  induction events as [|e rest IH]; intros c H; cbn [run].
  - split; [exact H | constructor].
  - destruct (step_keeps c e H) as [H1 H2].
    destruct (step c e) as [c1 out]. cbn [fst snd] in *.
    destruct (IH c1 H1) as [H3 H4].
    destruct (run rest c1) as [c2 more]. cbn [fst snd] in *.
    split; [exact H3 | apply Forall_app; split; assumption].
Qed.

Lemma client_stays_well_formed_witness :
  well_formed new_client
  /\ well_formed (fst (run [Connect true; SubscribeToToken "MONKE"; Closed; Reconnect false]
                         new_client)).
Proof.
  assert (H : well_formed new_client).
  { unfold well_formed, maxReconnectAttempts. cbn.
    repeat split; try lia; try constructor; try discriminate. }
  split; [exact H|].
  exact (proj1 (client_stays_well_formed
                  [Connect true; SubscribeToToken "MONKE"; Closed; Reconnect false]
                  new_client H)).
Defined.




Lemma resubscribe_members addresses : forall c,
  isConnected c = true -> ws c = true ->
  Forall (fun x => existsb (String.eqb x) (subscribedTokens c) = true) addresses ->
  resubscribe addresses c = (c, map Send_subscribe addresses).
Proof.
  induction addresses as [|x rest IH]; intros c Hconnected Hws Hin; cbn [resubscribe map].
  - reflexivity.
  - inversion Hin as [|? ? Hx Hrest]; subst.
    pose proof (IH c Hconnected Hws Hrest) as Hothers.
    destruct c as [socket attempts delay heartbeat connected tokens0].
    cbn [isConnected ws subscribedTokens] in *. subst socket connected.
    unfold subscribeToToken.
    cbn [isConnected ws subscribedTokens reconnectAttempts reconnectDelay
         heartbeatInterval negb orb].
    rewrite (set_add_member x _ Hx), Hothers. reflexivity.
Qed.

(** A reconnection that opens sends one [subscribe] for each token of
    [subscribedTokens], in the order they were first subscribed, and leaves
    the set as it is, with the count of attempts back to 0.  A subscription
    asked for while the client is not connected is dropped: nothing is
    sent, the token is not remembered, and the reconnection does not
    subscribe to it.  After [disconnect] a reconnection subscribes to
    nothing. *)
Theorem reconnection_subscribes_again :
  forall c,
    (exists c',
        reconnect true c = (c', map Send_subscribe (subscribedTokens c))
        /\ subscribedTokens c' = subscribedTokens c
        /\ reconnectAttempts c' = 0%nat
        /\ isConnected c' = true)
    /\ (forall tokenAddress,
          isConnected c = false ->
          subscribeToToken tokenAddress c = (c, [])
          /\ snd (run [SubscribeToToken tokenAddress; Reconnect true] c)
             = map Send_subscribe (subscribedTokens c))
    /\ snd (run [Disconnect; Reconnect true] c) = [].
Proof.
  intros c.
  assert (Hagain : forall c0,
             reconnect true c0
             = (mkClient true 0 1000 true true (subscribedTokens c0),
                map Send_subscribe (subscribedTokens c0))).
  { intros c0. unfold reconnect, connect. cbn [subscribedTokens].
    apply resubscribe_members; [reflexivity | reflexivity |].
    cbn [subscribedTokens]. apply Forall_forall. intros x Hx.
    apply existsb_exists. exists x. split; [assumption | apply String.eqb_refl]. }
  split; [|split].
  - eexists. split; [apply Hagain|]. cbn. auto.
  - intros tokenAddress Hoff.
    assert (Hdropped : subscribeToToken tokenAddress c = (c, [])).
    { unfold subscribeToToken. rewrite Hoff. reflexivity. }
    split; [exact Hdropped|].
    cbn [run step]. rewrite Hdropped, Hagain. cbn [snd app]. apply app_nil_r.
  - cbn [run step]. rewrite Hagain. reflexivity.
Qed.

Lemma reconnection_subscribes_again_witness :
  snd (run [SubscribeToToken "LATE"; Reconnect true]
         (fst (run [Connect true; SubscribeToToken "MONKE"; Connect false; Disconnect;
                    Connect false]
                 new_client)))
  = [].
Proof.
  set (c := fst (run [Connect true; SubscribeToToken "MONKE"; Connect false; Disconnect;
                      Connect false] new_client)).
  destruct (reconnection_subscribes_again c) as (_ & Hlate & _).
  exact (proj2 (Hlate "LATE"%string eq_refl)).
Defined.

End FeedClient.

(** ** The average buy price of a holder *)







